(** * Seen-post tracking: the in-memory cache over the durable store

    A shallow embedding of [src/maxine/seen-posts.ts] (the class
    [IdbWithInMemoryCache], the module-level instance [seenPosts] and the
    hooks built on it) and of the alt-text length handling of
    [src/maxine/alt-text.ts].

    JavaScript promises are modelled in two phases.  The synchronous part of
    a method runs against the current cache object and yields a [Promise]:
    either one that is already resolved, or a read that was handed to the
    durable store together with the [then] callback that will run when the
    store answers.  [settle] runs that callback against the cache object as
    it is at the time of the answer, so other calls may come in between. *)

From Stdlib Require Import Ascii String.
From stdpp Require Import gmap strings list fin_maps pretty.

Set Default Proof Using "Type".

(** ** Promises *)

(** The state a promise ends in: fulfilled with a value, or rejected with a
    reason. *)
Inductive Settled (A : Type) : Type :=
  | Fulfilled (value : A)
  | Rejected (reason : string).
Arguments Fulfilled {A} value.
Arguments Rejected {A} reason.

Section IdbWithInMemoryCache.
Context {V : Type}.

(** The class is generic in its key type; its one instance, [seenPosts],
    has string keys, which a [Map] compares by value. *)
Abbreviation K := string.

(** Modelled from the spec: [./idb] (class [IdbKV]) is not among the
    sources.  Its interface is [get(key) → Promise<Value|undefined>],
    [getBatch(keys) → Promise<Mapping<Key, Value|undefined>>] and
    [set(key, value) → void].  The calls the cache makes on it are
    recorded, the way a stub store would record them. *)
Inductive IdbCall : Type :=
  | idb_set (key : K) (value : V)
  | idb_get (key : K)
  | idb_getBatch (keys : list K).

(** Modelled from the spec: what the two read methods of [IdbKV]
    eventually answer.  Nothing is assumed of the answers: the store
    commits writes on its own schedule, and its promise may reject. *)
Record IdbKV : Type := {
  answer_get : K → Settled (option V);
  answer_getBatch : list K → Settled (gmap K (option V));
}.

(** The object: [cache] is the [Map<K, V | undefined>] (a key bound to
    [None] is present with value [undefined]); [idb] is the store, seen
    through the calls it has received so far, oldest first. *)
Record IdbWithInMemoryCache : Type := mkIdbWithInMemoryCache {
  cache : gmap K (option V);
  idb : list IdbCall;
}.

Definition constructor : IdbWithInMemoryCache :=
  {| cache := ∅; idb := [] |}.

(** [this.cache.set(key, value)] and a call on [this.idb]. *)
Definition cache_set (key : K) (value : option V)
    (this : IdbWithInMemoryCache) : IdbWithInMemoryCache :=
  {| cache := <[key := value]> (cache this); idb := idb this |}.

Definition idb_call (c : IdbCall)
    (this : IdbWithInMemoryCache) : IdbWithInMemoryCache :=
  {| cache := cache this; idb := idb this ++ [c] |}.

(** [this.cache.has(key)] and [this.cache.get(key)]. *)
Definition cache_has (key : K) (this : IdbWithInMemoryCache) : bool :=
  bool_decide (is_Some (cache this !! key)).

Definition cache_get (key : K) (this : IdbWithInMemoryCache) : option V :=
  match cache this !! key with
  | Some value => value
  | None => None
  end.

(** A promise returned by a method of the class: [Promise.resolve(a)],
    [this.idb.get(key).then(onFulfilled)] or
    [this.idb.getBatch(keys).then(onFulfilled)].  The callback reads and
    writes the cache object of the time it runs. *)
Inductive Promise (A : Type) : Type :=
  | Promise_resolve (a : A)
  | idb_get_then (key : K)
      (onFulfilled : option V → IdbWithInMemoryCache → IdbWithInMemoryCache * A)
  | idb_getBatch_then (keys : list K)
      (onFulfilled : gmap K (option V) → IdbWithInMemoryCache → IdbWithInMemoryCache * A).
Arguments Promise_resolve {A} a.
Arguments idb_get_then {A} key onFulfilled.
Arguments idb_getBatch_then {A} keys onFulfilled.

(** [p.then(f)] for a callback [f] that does not touch the cache. *)
Definition Promise_then {A B : Type} (p : Promise A) (f : A → B) : Promise B :=
  match p with
  | Promise_resolve a => Promise_resolve (f a)
  | idb_get_then key k =>
      idb_get_then key (λ value this, let '(this', a) := k value this in (this', f a))
  | idb_getBatch_then keys k =>
      idb_getBatch_then keys (λ batch this, let '(this', a) := k batch this in (this', f a))
  end.

(** The store answers and the pending callback runs.  A rejection skips
    the [then] callback and rejects the derived promise with the same
    reason: the class attaches no rejection handler. *)
Definition settle {A : Type} (store : IdbKV) (p : Promise A)
    (this : IdbWithInMemoryCache) : IdbWithInMemoryCache * Settled A :=
  match p with
  | Promise_resolve a => (this, Fulfilled a)
  | idb_get_then key onFulfilled =>
      match answer_get store key with
      | Fulfilled value =>
          let '(this', a) := onFulfilled value this in (this', Fulfilled a)
      | Rejected reason => (this, Rejected reason)
      end
  | idb_getBatch_then keys onFulfilled =>
      match answer_getBatch store keys with
      | Fulfilled batch =>
          let '(this', a) := onFulfilled batch this in (this', Fulfilled a)
      | Rejected reason => (this, Rejected reason)
      end
  end.

(** ** The methods *)

(** [set(key, value)]: memory first, then the durable write, which is not
    awaited. *)
Definition set (key : K) (value : V)
    (this : IdbWithInMemoryCache) : IdbWithInMemoryCache :=
  idb_call (idb_set key value) (cache_set key (Some value) this).

(** [get(key)]. *)
Definition get (key : K) (this : IdbWithInMemoryCache)
    : IdbWithInMemoryCache * Promise (option V) :=
  if cache_has key this then
    (this, Promise_resolve (cache_get key this))
  else
    (idb_call (idb_get key) this,
     idb_get_then key (λ value this', (cache_set key value this', value))).

(** The first loop of [getBatch]: copy the keys found in memory into
    [result], and stop at the first key that is not there.  The flag is
    [readAllKeysFromCache]. *)
Fixpoint getBatch_loop (keys : list K) (this : IdbWithInMemoryCache)
    (result : gmap K (option V)) : bool * gmap K (option V) :=
  match keys with
  | [] => (true, result)
  | key :: keys' =>
      if cache_has key this then
        getBatch_loop keys' this (<[key := cache_get key this]> result)
      else
        (false, result)
  end.

(** The [then] callback of [getBatch]: every pair of the store's answer
    is written into memory, and the answer itself is returned. *)
Definition getBatch_onFulfilled (batch : gmap K (option V))
    (this : IdbWithInMemoryCache) : IdbWithInMemoryCache * gmap K (option V) :=
  (map_fold (λ key value this', cache_set key value this') this batch, batch).

(** [getBatch(keys)]. *)
Definition getBatch (keys : list K) (this : IdbWithInMemoryCache)
    : IdbWithInMemoryCache * Promise (gmap K (option V)) :=
  let '(readAllKeysFromCache, result) := getBatch_loop keys this ∅ in
  if readAllKeysFromCache then
    (this, Promise_resolve result)
  else
    (idb_call (idb_getBatch keys) this,
     idb_getBatch_then keys getBatch_onFulfilled).

(** A call whose promise is awaited before anything else happens. *)
Definition await {A : Type} (store : IdbKV)
    (call : IdbWithInMemoryCache → IdbWithInMemoryCache * Promise A)
    (this : IdbWithInMemoryCache) : IdbWithInMemoryCache * Settled A :=
  let '(this', p) := call this in settle store p this'.

End IdbWithInMemoryCache.

Arguments IdbCall V : clear implicits.
Arguments IdbKV V : clear implicits.
Arguments IdbWithInMemoryCache V : clear implicits.
Arguments Promise V A : clear implicits.
Arguments Promise_resolve {V A} a.
Arguments idb_get_then {V A} key onFulfilled.
Arguments idb_getBatch_then {V A} keys onFulfilled.

(** ** The seen-post tracker *)

(** [{ uri: string; cid: string }]. *)
Record PostRef : Type := mkPostRef {
  uri : string;
  cid : string;
}.

(** Modelled from the spec: [FeedDescriptor] is declared in
    [#/state/queries/post-feed], which is not among the sources; the
    tracker only stores it (a descriptor of the feed, opaque to the cache). *)
Definition FeedDescriptor : Type := string.

(** The value type of [seenPosts].  [lastSeenAt] is a [Date], kept as its
    time value in milliseconds. *)
Record SeenPost : Type := mkSeenPost {
  post : PostRef;
  lastSeenAt : Z;
  lastSeenFeed : FeedDescriptor;
}.

(** Modelled from the spec: [FeedPostSlice] is declared in
    [#/state/queries/post-feed]; the hooks read [slice.items] and, of each
    item, [item.post.uri] and [item.post.cid]. *)
Record FeedPostSliceItem : Type := mkFeedPostSliceItem {
  item_post : PostRef;
}.

Record FeedPostSlice : Type := mkFeedPostSlice {
  items : list FeedPostSliceItem;
}.

(** The template literal [`${uri}:${cid}`] that all three functions use. *)
Definition key (uri cid : string) : string := uri +:+ ":" +:+ cid.

(** A string without the separator [":"], as the content identifiers of
    posts are. *)
Fixpoint no_colon (s : string) : bool :=
  match s with
  | EmptyString => true
  | String c s' => negb (Ascii.eqb c ":"%char) && no_colon s'
  end.

(** [setSeenPost(post, feed)]; [now] is what [new Date()] reads. *)
Definition setSeenPost (p : PostRef) (feed : FeedDescriptor) (now : Z)
    (seenPosts : IdbWithInMemoryCache SeenPost) : IdbWithInMemoryCache SeenPost :=
  set (key (uri p) (cid p))
    {| post := {| uri := uri p; cid := cid p |};
       lastSeenAt := now;
       lastSeenFeed := feed |}
    seenPosts.

(** [seenPost !== undefined]. *)
Definition not_undefined (seenPost : option SeenPost) : bool :=
  match seenPost with
  | Some _ => true
  | None => false
  end.

(** [!!seenPost]: a record is an object, hence truthy; [undefined] is
    falsy. *)
Definition truthy (seenPost : option SeenPost) : bool :=
  match seenPost with
  | Some _ => true
  | None => false
  end.

(** What a settled promise does to the [isSeen] state of a hook: the
    [then] callback calls [setIsSeen] when the promise is fulfilled; no
    handler is attached for a rejection, so the state stays. *)
Definition setIsSeen (isSeen : bool) (outcome : Settled bool) : bool :=
  match outcome with
  | Fulfilled value => value
  | Rejected _ => isSeen
  end.

(** The effect of [useIsPostSeen]: the promise carries the argument of
    [setIsSeen]. *)
Definition useIsPostSeen_effect (p : PostRef)
    (seenPosts : IdbWithInMemoryCache SeenPost)
    : IdbWithInMemoryCache SeenPost * Promise SeenPost bool :=
  let '(seenPosts', promise) := get (key (uri p) (cid p)) seenPosts in
  (seenPosts', Promise_then promise not_undefined).

(** [useIsPostSeen]: the value the hook reports once its effect has run
    and its promise has settled, from the value [isSeen] it reported
    before. *)
Definition useIsPostSeen (p : PostRef) (store : IdbKV SeenPost) (isSeen : bool)
    (seenPosts : IdbWithInMemoryCache SeenPost)
    : IdbWithInMemoryCache SeenPost * bool :=
  let '(seenPosts', outcome) := await store (useIsPostSeen_effect p) seenPosts in
  (seenPosts', setIsSeen isSeen outcome).

(** [slice.items.map(item => `${item.post.uri}:${item.post.cid}`)]. *)
Definition slice_keys (slice : FeedPostSlice) : list string :=
  map (λ item, key (uri (item_post item)) (cid (item_post item))) (items slice).

(** The [seenPosts.get] calls made while building the argument of
    [console.log]: one per item, in order.  Their promises are only
    printed, but a call on a key that is not in memory still sends a read
    to the store and fills memory when it is answered. *)
Fixpoint logged_gets (keys : list string)
    (seenPosts : IdbWithInMemoryCache SeenPost)
    : IdbWithInMemoryCache SeenPost * list (Promise SeenPost (option SeenPost)) :=
  match keys with
  | [] => (seenPosts, [])
  | k :: keys' =>
      let '(seenPosts1, promise) := get k seenPosts in
      let '(seenPosts2, promises) := logged_gets keys' seenPosts1 in
      (seenPosts2, promise :: promises)
  end.

(** [[...seenPostMap.values()].every(seenPost => !!seenPost)]. *)
Definition isAllSeen (seenPostMap : gmap string (option SeenPost)) : bool :=
  forallb truthy (map snd (map_to_list seenPostMap)).

(** The effect of [useIsSliceSeen].  With no key it returns at once;
    otherwise it yields the promises handed to [console.log] and the
    promise whose callback calls [setIsSeen]. *)
Definition useIsSliceSeen_effect (slice : FeedPostSlice)
    (seenPosts : IdbWithInMemoryCache SeenPost)
    : IdbWithInMemoryCache SeenPost
      * list (Promise SeenPost (option SeenPost))
      * option (Promise SeenPost bool) :=
  let keys := slice_keys slice in
  if (length keys =? 0)%nat then (seenPosts, [], None)
  else
    let '(seenPosts1, logged) := logged_gets keys seenPosts in
    let '(seenPosts2, promise) := getBatch keys seenPosts1 in
    (seenPosts2, logged, Some (Promise_then promise isAllSeen)).

(** The store answers the reads of a list of promises, oldest first. *)
Definition settle_all {A : Type} (store : IdbKV SeenPost)
    (promises : list (Promise SeenPost A))
    (seenPosts : IdbWithInMemoryCache SeenPost) : IdbWithInMemoryCache SeenPost :=
  foldl (λ seenPosts' promise, (settle store promise seenPosts').1) seenPosts promises.

(** [useIsSliceSeen]: the value the hook reports once its effect has run
    and the store has answered the reads in the order they were sent. *)
Definition useIsSliceSeen (slice : FeedPostSlice) (store : IdbKV SeenPost)
    (isSeen : bool) (seenPosts : IdbWithInMemoryCache SeenPost)
    : IdbWithInMemoryCache SeenPost * bool :=
  match useIsSliceSeen_effect slice seenPosts with
  | (seenPosts1, _, None) => (seenPosts1, isSeen)
  | (seenPosts1, logged, Some promise) =>
      let seenPosts2 := settle_all store logged seenPosts1 in
      let '(seenPosts3, outcome) := settle store promise seenPosts2 in
      (seenPosts3, setIsSeen isSeen outcome)
  end.

(** ** Interleavings

    Between a call and the answer of the store other calls can run.  A
    [Step] is one uninterrupted piece of code of the class: the synchronous
    part of a method, or a [then] callback with the value the store
    answered. *)
Inductive Step (V : Type) : Type :=
  | step_set (k : string) (value : V)
  | step_get (k : string)
  | step_get_answer (k : string) (value : option V)
  | step_getBatch (keys : list string)
  | step_getBatch_answer (batch : gmap string (option V)).
Arguments step_set {V} k value.
Arguments step_get {V} k.
Arguments step_get_answer {V} k value.
Arguments step_getBatch {V} keys.
Arguments step_getBatch_answer {V} batch.

Definition step {V : Type} (s : Step V)
    (this : IdbWithInMemoryCache V) : IdbWithInMemoryCache V :=
  match s with
  | step_set k value => set k value this
  | step_get k => (get k this).1
  | step_get_answer k value => cache_set k value this
  | step_getBatch keys => (getBatch keys this).1
  | step_getBatch_answer batch => (getBatch_onFulfilled batch this).1
  end.

Definition run {V : Type} (steps : list (Step V))
    (this : IdbWithInMemoryCache V) : IdbWithInMemoryCache V :=
  foldl (λ this' s, step s this') this steps.

(** The steps that write the entry of [k] in memory. *)
Definition writes {V : Type} (k : string) (s : Step V) : bool :=
  match s with
  | step_set k' _ => bool_decide (k' = k)
  | step_get_answer k' _ => bool_decide (k' = k)
  | step_getBatch_answer batch => bool_decide (is_Some (batch !! k))
  | step_get _ | step_getBatch _ => false
  end.

(** ** Stores to run the code against *)

(** Modelled from the spec: a durable store that answers every read from
    what it has committed so far: a record for a committed key,
    [undefined] for any other, one entry per requested key.  A write that
    is still in its buffer is not in [committed]. *)
Definition committed_store {V : Type} (committed : gmap string V) : IdbKV V :=
  {| answer_get := λ k, Fulfilled (committed !! k);
     answer_getBatch := λ keys,
       Fulfilled (list_to_map (map (λ k, (k, committed !! k)) keys)) |}.

(** The store with nothing committed, over [nat] values. *)
Definition empty_store : IdbKV nat := committed_store ∅.

(** A store whose reads all fail. *)
Definition failing_store {V : Type} (reason : string) : IdbKV V :=
  {| answer_get := λ _, Rejected reason;
     answer_getBatch := λ _, Rejected reason |}.

(** ** Alt text: the length ceiling

    [src/maxine/alt-text.ts].  The network is an input: [fetch] maps the
    body of a request to what the call does, and the outcome of
    [getBase64Data] (which decodes or downloads the source) is given. *)
Module AltText.

(** [MAX_ALT_TEXT_LENGTH] and [ABSOLUTE_MAX_LENGTH]. *)
Definition MAX_ALT_TEXT_LENGTH : nat := 2000.
Definition ABSOLUTE_MAX_LENGTH : nat := 5000.

(** A thrown [Error]: [e.name] and [e.message]. *)
Record Error : Type := mkError {
  name : string;
  message : string;
}.

Inductive Thrown (A : Type) : Type :=
  | returned (a : A)
  | threw (e : Error).
Arguments returned {A} a.
Arguments threw {A} e.

(** A value of parsed JSON that is not a string, through what the code
    can observe of it: whether it is truthy, what
    [value.length + condensedNote.length <= MAX_ALT_TEXT_LENGTH] gives and
    what [condensedNote + value] puts after the note.  The last two
    convert the value to a primitive, which throws a [TypeError] for some
    objects. *)
Record NonString : Type := mkNonString {
  truthy : bool;
  note_fits : Thrown bool;
  printed : Thrown string;
}.

(** A value of parsed JSON: a string or something else. *)
Inductive JsValue : Type :=
  | js_string (s : string)
  | js_other (o : NonString).

(** The parsed JSON of a response, as far as the code reads it.  A field
    is [None] when it is missing ([undefined]); a body that is [null]
    reads like one with both fields missing. *)
Record ResponseData : Type := mkResponseData {
  altText : option JsValue;
  error : option JsValue;
}.

(** A [Response]: [ok], [status], [statusText], and what [json()] and
    [text()] give. *)
Record Response : Type := mkResponse {
  ok : bool;
  status : nat;
  statusText : string;
  json : Thrown ResponseData;
  text : Thrown string;
}.

(** The three bodies the code posts to [CLOUD_FUNCTION_URL]. *)
Inductive RequestBody : Type :=
  | proxyRequestBody (base64Data mimeType : string) (isVideo : bool)
      (fileName : string) (fileSize : nat)
  | simpleRequestBody (base64Data mimeType : string) (isVideo : bool)
      (simpleMode : bool) (fileName : string)
  | condensingRequest (operation directive text : string) (targetLength : nat).

Definition Fetch : Type := RequestBody → Thrown Response.

(** [type PortResponse = { altText: string } | { error: string }].  The
    types are not checked when the code runs: where it hands on a value
    of the parsed JSON without testing its type, the field holds that
    value, string or not. *)
Inductive PortResponse : Type :=
  | port_altText (altText : JsValue)
  | port_error (error : JsValue).

(** [s.substring(0, n)] and [s.includes(t)]. *)
Definition substring0 (n : nat) (s : string) : string := String.substring 0 n s.

Definition includes (t s : string) : bool :=
  match String.index 0 t s with
  | Some _ => true
  | None => false
  end.

(** [s.toLowerCase()] on the ASCII letters. *)
Definition lower_ascii (c : Ascii.ascii) : Ascii.ascii :=
  let n := Ascii.nat_of_ascii c in
  if ((65 <=? n) && (n <=? 90))%nat then Ascii.ascii_of_nat (n + 32) else c.

Fixpoint toLowerCase (s : string) : string :=
  match s with
  | EmptyString => EmptyString
  | String c s' => String (lower_ascii c) (toLowerCase s')
  end.

(** A string is falsy exactly when it is empty; [undefined] is falsy. *)
Definition truthy_string (s : option string) : option string :=
  match s with
  | Some EmptyString => None
  | Some s' => Some s'
  | None => None
  end.

(** Truthiness of a value, and a field read through [!] or [||]: the
    value when it is there and truthy. *)
Definition js_truthy (v : JsValue) : bool :=
  match v with
  | js_string EmptyString => false
  | js_string _ => true
  | js_other o => truthy o
  end.

Definition truthy_field (field : option JsValue) : option JsValue :=
  match field with
  | Some v => if js_truthy v then Some v else None
  | None => None
  end.

(** [originalText.substring(0, MAX_ALT_TEXT_LENGTH - 3) + '...']. *)
Definition truncated (originalText : string) : string :=
  substring0 (MAX_ALT_TEXT_LENGTH - 3) originalText +:+ "...".

(** The body of the request of [condenseAltText]: [condensingRequest],
    with [targetLength], [directive] and [safeOriginalText]. *)
Definition condensing_body (originalText : string) (isVideo : bool) : RequestBody :=
  let targetLength := MAX_ALT_TEXT_LENGTH - 100 in
  let mediaType := if isVideo then "video" else "image" in
  let directive :=
    "You are an expert at writing concise, informative alt text. Please condense the following "
    +:+ mediaType +:+ " description to be no more than " +:+ pretty targetLength
    +:+ " characters while preserving the most important details. The description needs to be accessible and useful for screen readers:" in
  let safeOriginalText :=
    if (ABSOLUTE_MAX_LENGTH <? String.length originalText)%nat
    then substring0 (ABSOLUTE_MAX_LENGTH - 100) originalText
         +:+ "... [content truncated for processing]"
    else originalText in
  condensingRequest "condense_text" directive safeOriginalText targetLength.

(** [condenseAltText(originalText, isVideo)]. *)
Definition condenseAltText (CLOUD_FUNCTION_URL : option string) (fetch : Fetch)
    (originalText : string) (isVideo : bool) : JsValue :=
  match truthy_string CLOUD_FUNCTION_URL with
  | None => js_string (truncated originalText)
  | Some _ =>
      match fetch (condensing_body originalText isVideo) with
      | threw _ => js_string (truncated originalText)
      | returned response =>
          match json response with
          | threw _ => js_string (truncated originalText)
          | returned responseData =>
              match ok response, truthy_field (altText responseData) with
              | true, Some condensed => condensed
              | _, _ => js_string (truncated originalText)
              end
          end
      end
  end.

(** What the condensation request delivered: the [altText] of the reply
    when the request went through ([fetch] and [json()] did not throw,
    the status is ok, and [altText] is there and truthy). *)
Definition condensation (fetch : Fetch) (originalText : string) (isVideo : bool)
    : option JsValue :=
  match fetch (condensing_body originalText isVideo) with
  | threw _ => None
  | returned response =>
      match json response with
      | threw _ => None
      | returned responseData =>
          if ok response then truthy_field (altText responseData) else None
      end
  end.

(** [condensedNote]; it ends in two line feeds. *)
Definition condensedNote : string :=
  "[Note: This video description was automatically condensed to fit character limits.]" +:+
  String "010"%char (String "010"%char EmptyString).

(** [mimeType.split('/')[1]]: the text between the first and the second
    slash, [None] when there is no slash. *)
Fixpoint up_to_slash (s : string) : string :=
  match s with
  | EmptyString => EmptyString
  | String c s' => if Ascii.eqb c "/"%char then EmptyString else String c (up_to_slash s')
  end.

Fixpoint split_slash_1 (s : string) : option string :=
  match s with
  | EmptyString => None
  | String c s' => if Ascii.eqb c "/"%char then Some (up_to_slash s') else split_slash_1 s'
  end.

Definition fileName_of (mimeType : string) (isVideo : bool) : string :=
  "file." +:+
  match truthy_string (split_slash_1 mimeType) with
  | Some ext => ext
  | None => if isVideo then "mp4" else "jpg"
  end.

(** [altText.length + condensedNote.length <= MAX_ALT_TEXT_LENGTH] and
    [condensedNote + altText]. *)
Definition js_note_fits (altText1 : JsValue) : Thrown bool :=
  match altText1 with
  | js_string s =>
      returned (String.length s + String.length condensedNote <=? MAX_ALT_TEXT_LENGTH)%nat
  | js_other o => note_fits o
  end.

Definition js_after_note (altText1 : JsValue) : Thrown string :=
  match altText1 with
  | js_string s => returned (condensedNote +:+ s)
  | js_other o =>
      match printed o with
      | returned p => returned (condensedNote +:+ p)
      | threw e => threw e
      end
  end.

(** Lines 214-240: a successful response of the proxy.  What is thrown
    here is caught by the [catch] of the inner [try]. *)
Definition on_proxy_data (CLOUD_FUNCTION_URL : option string) (fetch : Fetch)
    (isVideo : bool) (responseData : ResponseData) : Thrown PortResponse :=
  match altText responseData with
  | Some (js_string altText0) =>
      if (MAX_ALT_TEXT_LENGTH <? String.length altText0)%nat then
        let altText1 := condenseAltText CLOUD_FUNCTION_URL fetch altText0 isVideo in
        if isVideo then
          match js_note_fits altText1 with
          | threw e => threw e
          | returned true =>
              match js_after_note altText1 with
              | threw e => threw e
              | returned withNote => returned (port_altText (js_string withNote))
              end
          | returned false => returned (port_altText altText1)
          end
        else returned (port_altText altText1)
      else returned (port_altText (js_string altText0))
  | Some (js_other _) | None =>
      returned (port_error (js_string "Received invalid response format from proxy service."))
  end.

(** Lines 184-208: a response of the proxy that is not [ok]. *)
Definition on_proxy_failure (proxyResponse : Response) : PortResponse :=
  let st := status proxyResponse in
  if (st =? 403)%nat then
    port_error (js_string "Access denied by the server. This is likely a CORS (Cross-Origin Resource Sharing) issue. The server needs to allow this extension to connect to it.")
  else if (st =? 413)%nat then
    port_error (js_string "Server error: File exceeds size limits (max 20MB). Please use a smaller file.")
  else if ((st =? 0) || (st =? 500) || (st =? 502))%nat then
    port_error (js_string "The server experienced an error processing your request. This could be due to the file size or server load.")
  else
    match json proxyResponse with
    | returned responseData =>
        match truthy_field (error responseData), truthy_string (Some (statusText proxyResponse)) with
        | Some errorMsg, _ => port_error errorMsg
        | None, Some msg => port_error (js_string msg)
        | None, None => port_error (js_string ("Proxy request failed with status " +:+ pretty st))
        end
    | threw _ =>
        port_error (js_string ("Request failed (" +:+ pretty st +:+ "): "
                               +:+ statusText proxyResponse))
    end.

(** Lines 246-286: the second attempt after a [TypeError] whose message
    has 'Failed to fetch'. *)
Definition alternate_approach (fetch : Fetch) (e : Error)
    (base64Data mimeType : string) (isVideo : bool) : PortResponse :=
  let altException (altError : Error) :=
    port_error (js_string ("Network error: Unable to connect to the AI service after multiple attempts. Please check your connection. (Main: "
                +:+ message e +:+ ", Alt Exception: " +:+ message altError +:+ ")")) in
  match fetch (simpleRequestBody base64Data mimeType isVideo true (fileName_of mimeType isVideo)) with
  | threw altError => altException altError
  | returned simpleResponse =>
      if negb (ok simpleResponse) then
        let errorText :=
          match text simpleResponse with
          | returned t => t
          | threw _ => "Alternative request failed with status " +:+ pretty (status simpleResponse)
          end in
        port_error (js_string ("Network error after multiple attempts. Main: " +:+ message e
                               +:+ ". Alt: " +:+ errorText))
      else
        match json simpleResponse with
        | threw altError => altException altError
        | returned simpleData =>
            match altText simpleData with
            | Some (js_string simpleAltText) => port_altText (js_string simpleAltText)
            | Some (js_other _) | None =>
                port_error (js_string "Network error: AI service connection failed (alt response invalid).")
            end
        end
  end.

(** Lines 241-309: the [catch] of the inner [try]. *)
Definition on_fetch_error (fetch : Fetch) (e : Error)
    (base64Data mimeType : string) (isVideo : bool) : PortResponse :=
  if String.eqb (name e) "TypeError" && includes "Failed to fetch" (message e) then
    alternate_approach fetch e base64Data mimeType isVideo
  else if String.eqb (name e) "AbortError" then
    port_error (js_string "Request timed out after several minutes. The media may be too complex to process.")
  else if includes "Failed to fetch" (message e) then
    port_error (js_string "Network error: Unable to connect to the AI service. Please check your connection and try again later.")
  else if includes "413" (message e)
       || includes "too large" (toLowerCase (message e))
       || includes "request entity too large" (toLowerCase (message e))
       || includes "payload too large" (toLowerCase (message e))
       || includes "message length exceeded" (toLowerCase (message e)) then
    port_error (js_string "Server error: File exceeds size limits (max 20MB). Please use a smaller file.")
  else if includes "NetworkError" (message e) then
    port_error (js_string "Network error: Connection interrupted. Please try again.")
  else
    port_error (js_string ("Error: " +:+
                            match truthy_string (Some (message e)) with
                            | Some m => m
                            | None => "Unknown error occurred"
                            end)).

(** [generateAltTextViaProxy(source, isVideo)], from the outcome
    [media] of [getBase64Data(source, isLargeVideo)] on. *)
Definition generateAltTextViaProxy (CLOUD_FUNCTION_URL : option string)
    (fetch : Fetch) (media : Thrown (string * string)) (isVideo : bool)
    : PortResponse :=
  match truthy_string CLOUD_FUNCTION_URL with
  | None => port_error (js_string "Extension configuration error: Proxy URL not set.")
  | Some url =>
      if String.eqb url "YOUR_FUNCTION_URL_HERE" then
        port_error (js_string "Extension configuration error: Proxy URL not set.")
      else
        match media with
        | threw error0 => port_error (js_string ("Request Error: " +:+ message error0))
        | returned (base64Data, mimeType) =>
            let body :=
              proxyRequestBody base64Data mimeType isVideo
                (fileName_of mimeType isVideo) (String.length base64Data) in
            match fetch body with
            | threw e => on_fetch_error fetch e base64Data mimeType isVideo
            | returned proxyResponse =>
                if negb (ok proxyResponse) then on_proxy_failure proxyResponse
                else
                  match json proxyResponse with
                  | threw e => on_fetch_error fetch e base64Data mimeType isVideo
                  | returned responseData =>
                      match on_proxy_data CLOUD_FUNCTION_URL fetch isVideo responseData with
                      | returned portResponse => portResponse
                      | threw e => on_fetch_error fetch e base64Data mimeType isVideo
                      end
                  end
            end
        end
  end.

(** A text of [n] letters. *)
Fixpoint letters (n : nat) : string :=
  match n with
  | O => EmptyString
  | S n' => String "a"%char (letters n')
  end.

End AltText.

(** ** The calls a run sends to the store *)

(** The durable writes among the calls the store received. *)
Definition is_idb_set {V : Type} (c : IdbCall V) : bool :=
  match c with
  | idb_set _ _ => true
  | idb_get _ | idb_getBatch _ => false
  end.

(** The [set] calls of a run, as the writes they hand to the store. *)
Definition sets_of {V : Type} (steps : list (Step V)) : list (IdbCall V) :=
  omap (λ s, match s with
             | step_set k value => Some (idb_set k value)
             | _ => None
             end) steps.

(** ** The toggle *)

(** Modelled from the spec: [useLocalStorage] is declared in
    [./local-store], which is not among the sources.  It gives the string
    stored under a key, or the default when nothing is stored, and a
    setter that stores a string. *)
Definition useLocalStorage (stored : option string) (default : string) : string :=
  match stored with
  | Some value => value
  | None => default
  end.

(** [useHideSeenPosts()], with [stored] what local storage holds under
    ['maxine:hideSeenPosts'].  The second component is the string that the
    returned setter stores for a boolean. *)
Definition useHideSeenPosts (stored : option string) : bool * (bool → string) :=
  let hideSeenPosts := useLocalStorage stored "false" in
  (String.eqb hideSeenPosts "true", λ value : bool, if value then "true" else "false").

(** ** Navigation tabs

    [src/lib/hooks/useNavigationTabState.web.ts]. *)

Record TabState : Type := mkTabState {
  isAtHome : bool;
  isAtSearch : bool;
  isAtNotifications : bool;
  isAtBookmarks : bool;
  isAtMyProfile : bool;
  isAtMessages : bool;
}.

(** The selector that [useNavigationTabState] hands to
    [useNavigationState]; [state] is [None] when it is [undefined].
    [getCurrentRoute] is declared in [#/lib/routes/helpers], which is not
    among the sources: [currentRouteName] stands for
    [getCurrentRoute(state).name]. *)
Definition useNavigationTabState {NavigationState : Type}
    (currentRouteName : NavigationState → string)
    (state : option NavigationState) : TabState :=
  let currentRoute :=
    match state with
    | Some st => currentRouteName st
    | None => "Home"
    end in
  {| isAtHome := String.eqb currentRoute "Home";
     isAtSearch := String.eqb currentRoute "Search";
     isAtNotifications := String.eqb currentRoute "Notifications";
     isAtBookmarks := String.eqb currentRoute "Bookmarks";
     isAtMyProfile := String.eqb currentRoute "MyProfile";
     isAtMessages := String.eqb currentRoute "Messages" |}.

(** The six flags of a [TabState]. *)
Definition tab_flags (tabs : TabState) : list bool :=
  [isAtHome tabs; isAtSearch tabs; isAtNotifications tabs;
   isAtBookmarks tabs; isAtMyProfile tabs; isAtMessages tabs].

(** ** Bookmarks

    [src/state/queries/bookmark.ts]: the [runMutation] of
    [usePostBookmarkMutationQueue] and the two [mutationFn] it awaits.
    The agent is seen through the requests it receives and what it
    answers. *)
Module Bookmark.

(** The record of [usePostBookmarkMutation]: [$type], [subject],
    [createdAt]. *)
Record BookmarkRecord : Type := mkBookmarkRecord {
  type_ : string;
  subject : string;
  createdAt : string;
}.

(** The requests sent through [agent.com.atproto.repo]. *)
Inductive AgentCall : Type :=
  | createRecord (repo collection : string) (record : BookmarkRecord) (validate : bool)
  | deleteRecord (repo collection rkey : string).

(** The agent and the clock: [assertDid] (which throws without a
    session), what the two requests are answered ([data.uri] for
    [createRecord]), [new AtUri(uri).rkey] (the constructor throws on a
    string it cannot parse) and [new Date().toISOString()]. *)
Record Agent : Type := mkAgent {
  assertDid : Settled string;
  createRecord_answer : AgentCall → Settled string;
  deleteRecord_answer : AgentCall → Settled unit;
  AtUri_rkey : string → Settled string;
  now_toISOString : string;
}.

(** [bookmarkMutation.mutateAsync()]: the [mutationFn] of
    [usePostBookmarkMutation]. *)
Definition bookmarkMutation (agent : Agent) (post_uri : string)
    : list AgentCall * Settled string :=
  let record :=
    {| type_ := "community.lexicon.bookmarks.bookmark";
       subject := post_uri;
       createdAt := now_toISOString agent |} in
  match assertDid agent with
  | Rejected reason => ([], Rejected reason)
  | Fulfilled did =>
      let call := createRecord did "community.lexicon.bookmarks.bookmark" record false in
      ([call], createRecord_answer agent call)
  end.

(** [unBookmarkMutation.mutateAsync({bookmarkUri})]. *)
Definition unBookmarkMutation (agent : Agent) (bookmarkUri : string)
    : list AgentCall * Settled unit :=
  match AtUri_rkey agent bookmarkUri with
  | Rejected reason => ([], Rejected reason)
  | Fulfilled rkey =>
      match assertDid agent with
      | Rejected reason => ([], Rejected reason)
      | Fulfilled did =>
          let call := deleteRecord did "community.lexicon.bookmarks.bookmark" rkey in
          ([call], deleteRecord_answer agent call)
      end
  end.

(** [runMutation(prevBookmarkUri, shouldBookmark)]: the requests sent and
    the new bookmark URI ([None] for [undefined]).  An empty
    [prevBookmarkUri] is falsy. *)
Definition runMutation (agent : Agent) (post_uri : string)
    (prevBookmarkUri : option string) (shouldBookmark : bool)
    : list AgentCall * Settled (option string) :=
  if shouldBookmark then
    match bookmarkMutation agent post_uri with
    | (calls, Fulfilled data_uri) => (calls, Fulfilled (Some data_uri))
    | (calls, Rejected reason) => (calls, Rejected reason)
    end
  else
    match prevBookmarkUri with
    | Some (String c rest) =>
        match unBookmarkMutation agent (String c rest) with
        | (calls, Fulfilled _) => (calls, Fulfilled None)
        | (calls, Rejected reason) => (calls, Rejected reason)
        end
    | Some EmptyString | None => ([], Fulfilled None)
    end.

End Bookmark.

(** ** Alt text: reading the source

    [getBase64Data] of [src/maxine/alt-text.ts].  A string is a sequence
    of code units below 256, so the line terminators that [.] of a
    regular expression does not match are line feed and carriage
    return. *)
Module MediaSource.
Import AltText.

Definition is_line_terminator (c : Ascii.ascii) : bool :=
  Ascii.eqb c "010"%char || Ascii.eqb c "013"%char.

Fixpoint no_line_terminator (s : string) : bool :=
  match s with
  | EmptyString => true
  | String c s' => negb (is_line_terminator c) && no_line_terminator s'
  end.

Fixpoint drop_chars (n : nat) (s : string) : string :=
  match n, s with
  | O, _ => s
  | S n', String _ s' => drop_chars n' s'
  | S _, EmptyString => EmptyString
  end.

(** The regular expression that [source.match] applies (anchored at both
    ends: [data:], a lazy group of one or more characters, [;base64,], a
    greedy group), after the first character of the first group: the group is extended one character at a time,
    never over a line terminator, until [;base64,] follows and the rest
    of the string has no line terminator. *)
Fixpoint match_rest (s : string) : option (string * string) :=
  if String.prefix ";base64," s && no_line_terminator (drop_chars 8 s) then
    Some (EmptyString, drop_chars 8 s)
  else
    match s with
    | EmptyString => None
    | String c s' =>
        if is_line_terminator c then None
        else
          match match_rest s' with
          | Some (group1, group2) => Some (String c group1, group2)
          | None => None
          end
    end.

(** The two groups [parts[1]] and [parts[2]] of the match, [None] when
    the string does not match. *)
Definition match_data_url (source : string) : option (string * string) :=
  if String.prefix "data:" source then
    match drop_chars 5 source with
    | EmptyString => None
    | String c rest =>
        if is_line_terminator c then None
        else
          match match_rest rest with
          | Some (group1, group2) => Some (String c group1, group2)
          | None => None
          end
    end
  else None.

(** [new Error(message)]. *)
Definition new_Error (msg : string) : Error := {| name := "Error"; message := msg |}.

(** A [Blob]: [size], [type], and what [blobToDataURL] gives for it, the
    data URL the [FileReader] produced or, when the reader failed, the
    value it rejected with as it prints. *)
Record Blob : Type := mkBlob {
  size : nat;
  type : string;
  blobToDataURL : Settled string;
}.

(** The [Response] of [fetch(source)], as far as it is read. *)
Record MediaResponse : Type := mkMediaResponse {
  media_ok : bool;
  media_status : nat;
  media_statusText : string;
  media_blob : Thrown Blob;
}.

Definition Download : Type := string → Thrown MediaResponse.

(** The [try] and [catch] of the two branches that download the source;
    [notOk] and [wrap] are the texts in which the branches differ, and
    [again] is the call [getBase64Data(dataUrl)]. *)
Definition fetch_source (again : string → option (Thrown (string * string)))
    (download : Download) (source notOk wrap : string)
    : option (Thrown (string * string)) :=
  let rethrow (text : string) := Some (threw (new_Error (wrap +:+ text))) in
  match download source with
  | threw fetchError => rethrow (message fetchError)
  | returned response =>
      if negb (media_ok response) then
        rethrow (notOk +:+ pretty (media_status response) +:+ " "
                 +:+ media_statusText response)
      else
        match media_blob response with
        | threw fetchError => rethrow (message fetchError)
        | returned blob =>
            match blobToDataURL blob with
            | Rejected printed => rethrow printed
            | Fulfilled dataUrl =>
                match again dataUrl with
                | None => None
                | Some (returned parts) => Some (returned parts)
                | Some (threw fetchError) => rethrow (message fetchError)
                end
            end
        end
  end.

(** [getBase64Data(source)]: [(base64Data, mimeType)] or the error
    thrown.  The function calls itself on the data URL it downloaded;
    [fuel] bounds the depth of these calls and [None] means it ran
    out. *)
Fixpoint getBase64Data (fuel : nat) (download : Download) (source : string)
    : option (Thrown (string * string)) :=
  match fuel with
  | O => None
  | S fuel' =>
      if String.prefix "data:" source then
        match match_data_url source with
        | None => Some (threw (new_Error "Invalid Data URL format received"))
        | Some (mimeType, base64Data) =>
            if negb (includes "/" mimeType)
               || match base64Data with EmptyString => true | _ => false end
            then Some (threw (new_Error "Extracted mimeType or base64 data appears invalid."))
            else Some (returned (base64Data, mimeType))
        end
      else if String.prefix "http:" source || String.prefix "https:" source then
        fetch_source (getBase64Data fuel' download) download source
          "Failed to fetch URL: " "Failed to fetch or process media URL: "
      else if String.prefix "blob:" source then
        fetch_source (getBase64Data fuel' download) download source
          "Failed to fetch blob URL: " "Failed to fetch or process blob URL: "
      else
        Some (threw (new_Error "Background script received an unsupported source type."))
  end.

(** [generateAltTextViaProxy(source, isVideo)] from the source string
    on. *)
Definition generateAltTextViaProxy_source (fuel : nat) (download : Download)
    (CLOUD_FUNCTION_URL : option string) (fetch : Fetch)
    (source : string) (isVideo : bool) : option PortResponse :=
  match getBase64Data fuel download source with
  | None => None
  | Some media => Some (generateAltTextViaProxy CLOUD_FUNCTION_URL fetch media isVideo)
  end.

(** The data URL of a media type and its base64 text. *)
Definition data_url (mimeType base64Data : string) : string :=
  "data:" +:+ mimeType +:+ ";base64," +:+ base64Data.

(** A string without [;]. *)
Fixpoint no_semicolon (s : string) : bool :=
  match s with
  | EmptyString => true
  | String c s' => negb (Ascii.eqb c ";"%char) && no_semicolon s'
  end.

End MediaSource.

(** * Properties *)

(** ** The cache object *)

Section cache_facts.
Context {V : Type}.
Implicit Types (this : IdbWithInMemoryCache V) (k : string).
Implicit Types (batch result : gmap string (option V)).

Lemma cache_has_true k this :
  cache_has k this = true ↔ is_Some (cache this !! k).
Proof. unfold cache_has. by rewrite bool_decide_eq_true. Qed.

Lemma cache_has_false k this :
  cache_has k this = false ↔ cache this !! k = None.
Proof.
  unfold cache_has. rewrite bool_decide_eq_false.
  by rewrite eq_None_not_Some.
Qed.

Lemma cache_get_lookup k this value :
  cache this !! k = Some value → cache_get k this = value.
Proof. unfold cache_get. by intros ->. Qed.

(** The callback of [getBatch] leaves in memory the store's answer laid
    over what was there, and sends nothing to the store. *)
Lemma getBatch_onFulfilled_spec batch this :
  cache (getBatch_onFulfilled batch this).1 = batch ∪ cache this
  ∧ idb (getBatch_onFulfilled batch this).1 = idb this
  ∧ (getBatch_onFulfilled batch this).2 = batch.
Proof.
  unfold getBatch_onFulfilled. simpl.
  split_and!; [| |done].
  - apply (map_fold_weak_ind (λ r m, cache r = m ∪ cache this)).
    + by rewrite (left_id_L ∅ (∪)).
    + intros i x m r _ IH. simpl. by rewrite IH, insert_union_l.
  - apply (map_fold_weak_ind (λ r (m : gmap string (option V)), idb r = idb this)); [done|].
    by intros i x m r _ IH.
Qed.

Lemma getBatch_onFulfilled_lookup batch this k :
  cache (getBatch_onFulfilled batch this).1 !! k =
    match batch !! k with
    | Some value => Some value
    | None => cache this !! k
    end.
Proof.
  destruct (getBatch_onFulfilled_spec batch this) as (-> & _ & _).
  rewrite lookup_union. destruct (batch !! k), (cache this !! k); done.
Qed.

(** The first loop of [getBatch]: the flag says whether every key is in
    memory; if so, [result] has gained exactly the entries of the keys. *)
Lemma getBatch_loop_flag keys this result :
  (getBatch_loop keys this result).1 = forallb (λ k, cache_has k this) keys.
Proof.
  revert result. induction keys as [|k keys IH]; intros result; simpl; [done|].
  destruct (cache_has k this); [apply IH | done].
Qed.

Lemma getBatch_loop_lookup keys this result k :
  forallb (λ k, cache_has k this) keys = true →
  (getBatch_loop keys this result).2 !! k =
    if decide (k ∈ keys) then cache this !! k else result !! k.
Proof.
  revert result. induction keys as [|k' keys IH]; intros result Hall; simpl in *.
  - destruct (decide (k ∈ [])) as [Hin|_]; [by apply elem_of_nil in Hin | done].
  - rewrite andb_true_iff in Hall. destruct Hall as [Hk' Hall]. rewrite Hk'.
    rewrite (IH _ Hall).
    apply cache_has_true in Hk' as [value Hvalue].
    destruct (decide (k ∈ keys)) as [Hin|Hnin].
    + rewrite decide_True; [done | apply elem_of_cons; by right].
    + destruct (decide (k' = k)) as [->|Hne].
      * rewrite decide_True by (apply elem_of_cons; by left).
        rewrite lookup_insert_eq, Hvalue. f_equal. by apply cache_get_lookup.
      * rewrite lookup_insert_ne by done.
        rewrite decide_False; [done|].
        intros [?|?]%elem_of_cons; congruence.
Qed.

Lemma forallb_cache_has keys this :
  forallb (λ k, cache_has k this) keys = true ↔
  ∀ k, k ∈ keys → is_Some (cache this !! k).
Proof.
  rewrite forallb_forall. split.
  - intros H k Hk. apply cache_has_true, H. by apply list_elem_of_In.
  - intros H k Hk. apply cache_has_true, H. by apply list_elem_of_In.
Qed.

Lemma forallb_cache_has_false keys this :
  forallb (λ k, cache_has k this) keys = false ↔
  ∃ k, k ∈ keys ∧ cache this !! k = None.
Proof.
  split.
  - induction keys as [|k keys IH]; simpl; [done|].
    rewrite andb_false_iff. intros [Hk|Hks].
    + exists k. split; [apply elem_of_cons; by left | by apply cache_has_false].
    + destruct (IH Hks) as (k' & ? & ?). exists k'. split; [apply elem_of_cons; by right | done].
  - intros (k & Hk & Hnone).
    destruct (forallb _ keys) eqn:Hall; [|done].
    apply forallb_cache_has with (k := k) in Hall as [? ?]; congruence.
Qed.

(** [getBatch] when every key is in memory, and when one is not. *)
Lemma getBatch_warm keys this :
  forallb (λ k, cache_has k this) keys = true →
  getBatch keys this = (this, Promise_resolve (getBatch_loop keys this ∅).2).
Proof.
  intros Hall. unfold getBatch.
  pose proof (getBatch_loop_flag keys this ∅) as Hflag.
  destruct (getBatch_loop keys this ∅) as [flag result]. simpl in *.
  by rewrite Hflag, Hall.
Qed.

Lemma getBatch_cold keys this :
  forallb (λ k, cache_has k this) keys = false →
  getBatch keys this =
    (idb_call (idb_getBatch keys) this,
     idb_getBatch_then keys getBatch_onFulfilled).
Proof.
  intros Hall. unfold getBatch.
  pose proof (getBatch_loop_flag keys this ∅) as Hflag.
  destruct (getBatch_loop keys this ∅) as [flag result]. simpl in *.
  by rewrite Hflag, Hall.
Qed.

Lemma get_warm k this :
  is_Some (cache this !! k) →
  get k this = (this, Promise_resolve (cache_get k this)).
Proof. intros H%cache_has_true. unfold get. by rewrite H. Qed.

Lemma get_cold k this :
  cache this !! k = None →
  get k this =
    (idb_call (idb_get k) this,
     idb_get_then k (λ value this', (cache_set k value this', value))).
Proof. intros H%cache_has_false. unfold get. by rewrite H. Qed.

(** A second [get] on the same key while the first read is pending finds
    memory still empty and sends a read of its own. *)
Lemma get_while_pending_reads_again k this :
  cache this !! k = None →
  idb (get k (get k this).1).1 = idb this ++ [idb_get k; idb_get k].
Proof.
  intros Hcold. rewrite (get_cold k this) by done. simpl.
  rewrite get_cold by done. simpl. by rewrite <- app_assoc.
Qed.

(** *** Steps *)

(** No step removes a key from memory. *)
Lemma step_cache_mono (s : Step V) this k :
  is_Some (cache this !! k) → is_Some (cache (step s this) !! k).
Proof.
  intros Hk. destruct s as [k' v|k'|k' v|keys|batch]; unfold step.
  - simpl. rewrite lookup_insert. case_decide; [by eexists | done].
  - unfold get. destruct (cache_has k' this); done.
  - simpl. rewrite lookup_insert. case_decide; [by eexists | done].
  - unfold getBatch. destruct (getBatch_loop keys this ∅) as [[] ?]; done.
  - rewrite getBatch_onFulfilled_lookup. destruct (batch !! k); [by eexists | done].
Qed.

Lemma run_cache_mono (steps : list (Step V)) this k :
  is_Some (cache this !! k) → is_Some (cache (run steps this) !! k).
Proof.
  revert this. induction steps as [|s steps IH]; intros this Hk; simpl; [done|].
  by apply IH, step_cache_mono.
Qed.

(** A step that does not write the entry of [k] leaves it as it is. *)
Lemma step_cache_frame (s : Step V) this k :
  writes k s = false → cache (step s this) !! k = cache this !! k.
Proof.
  destruct s as [k' v|k'|k' v|keys|batch]; unfold step, writes.
  - intros Hne%bool_decide_eq_false. simpl. by rewrite lookup_insert_ne.
  - intros _. unfold get. destruct (cache_has k' this); done.
  - intros Hne%bool_decide_eq_false. simpl. by rewrite lookup_insert_ne.
  - intros _. unfold getBatch. destruct (getBatch_loop keys this ∅) as [[] ?]; done.
  - intros Hne%bool_decide_eq_false. rewrite getBatch_onFulfilled_lookup.
    destruct (batch !! k); [|done]. exfalso. apply Hne. by eexists.
Qed.

Lemma run_cache_frame (steps : list (Step V)) this k :
  forallb (λ s, negb (writes k s)) steps = true →
  cache (run steps this) !! k = cache this !! k.
Proof.
  revert this. induction steps as [|s steps IH]; intros this Hsteps; simpl in *; [done|].
  rewrite andb_true_iff in Hsteps. destruct Hsteps as [Hs Hsteps].
  rewrite (IH _ Hsteps). apply step_cache_frame. by apply negb_true_iff.
Qed.

End cache_facts.

(** ** Write visibility and cold reads *)

(** C1. After [set(k, v)], and whatever runs in between as long as it does
    not write the entry of [k], [get(k)] is answered from memory: it
    returns an already resolved promise of [v], leaves the object as it is
    (so no read reaches the store, whose list of received calls is the
    same), and awaiting it gives [v] whatever the store would answer; the
    store is arbitrary, so the write of [set] need not have been
    committed. *)
Theorem set_then_get_from_memory {V : Type} (k : string) (v : V)
    (this : IdbWithInMemoryCache V) (steps : list (Step V)) :
  forallb (λ s, negb (writes k s)) steps = true →
  let this' := run steps (set k v this) in
  get k this' = (this', Promise_resolve (Some v))
  ∧ idb (get k this').1 = idb this'
  ∧ ∀ store : IdbKV V, await store (get k) this' = (this', Fulfilled (Some v)).
Proof.
  intros Hsteps this'.
  assert (cache this' !! k = Some (Some v)) as Hk.
  { unfold this'. rewrite run_cache_frame by done.
    simpl. apply lookup_insert_eq. }
  assert (get k this' = (this', Promise_resolve (Some v))) as Hget.
  { rewrite get_warm by (by eexists). by rewrite (cache_get_lookup _ _ _ Hk). }
  split_and!; [done | by rewrite Hget |].
  intros store. unfold await. by rewrite Hget.
Qed.

Lemma set_then_get_from_memory_witness :
  let this' := run [step_get "at://y:c2"] (set "at://x:c1" 7 constructor) in
  get "at://x:c1" this' = (this', Promise_resolve (Some 7))
  ∧ idb (get "at://x:c1" this').1 = idb this'
  ∧ ∀ store : IdbKV nat, await store (get "at://x:c1") this' = (this', Fulfilled (Some 7)).
Proof.
  apply (set_then_get_from_memory "at://x:c1" 7 constructor [step_get "at://y:c2"]).
  reflexivity.
Defined.




(** ** Batch reads *)

(** C3. [getBatch] on the empty list returns the empty mapping and leaves
    the object alone.  When every key of the list is in memory it returns,
    already resolved, the mapping that binds exactly the keys of the list
    to their memory entries, and the store receives no call.  When some
    key is missing, the store receives exactly one call, [getBatch] with
    the whole list, and nothing is returned yet; when the store answers
    with [batch], the callback writes every pair of [batch] into memory
    (entries of other keys stay), sends no further call, and only then
    the promise gives [batch]. *)
Theorem getBatch_all_or_nothing {V : Type} (keys : list string)
    (this : IdbWithInMemoryCache V) :
  getBatch [] this = (this, Promise_resolve ∅)
  ∧ ((∀ k, k ∈ keys → is_Some (cache this !! k)) →
     ∃ result,
       getBatch keys this = (this, Promise_resolve result)
       ∧ ∀ k, result !! k = if decide (k ∈ keys) then cache this !! k else None)
  ∧ ((∃ k, k ∈ keys ∧ cache this !! k = None) →
     ∃ this1,
       getBatch keys this = (this1, idb_getBatch_then keys getBatch_onFulfilled)
       ∧ idb this1 = idb this ++ [idb_getBatch keys]
       ∧ cache this1 = cache this
       ∧ ∀ (store : IdbKV V) (batch : gmap string (option V))
           (this2 : IdbWithInMemoryCache V),
           answer_getBatch store keys = Fulfilled batch →
           ∃ this3,
             settle store (idb_getBatch_then keys getBatch_onFulfilled) this2
               = (this3, Fulfilled batch)
             ∧ idb this3 = idb this2
             ∧ (∀ k value, batch !! k = Some value → cache this3 !! k = Some value)
             ∧ (∀ k, batch !! k = None → cache this3 !! k = cache this2 !! k)).
Proof.
  split_and!.
  - done.
  - intros Hall%forallb_cache_has.
    eexists. split; [by apply getBatch_warm|].
    intros k. by rewrite getBatch_loop_lookup.
  - intros Hsome%forallb_cache_has_false.
    eexists. split; [by apply getBatch_cold|].
    split_and!; [done..|].
    intros store batch this2 Hanswer.
    exists (getBatch_onFulfilled batch this2).1.
    destruct (getBatch_onFulfilled_spec batch this2) as (Hcache & Hidb & Hret).
    split_and!.
    + unfold settle. rewrite Hanswer.
      destruct (getBatch_onFulfilled batch this2) as [this3 m]. simpl in *.
      by rewrite Hret.
    + done.
    + intros k value Hk. by rewrite getBatch_onFulfilled_lookup, Hk.
    + intros k Hk. by rewrite getBatch_onFulfilled_lookup, Hk.
Qed.

Lemma getBatch_all_or_nothing_witness :
  let this := set "k1" 5 (constructor (V := nat)) in
  (∃ result, getBatch ["k1"] this = (this, Promise_resolve result)
             ∧ result !! "k1" = Some (Some 5))
  ∧ ∃ this1 this3,
      getBatch ["k1"; "k2"] this
        = (this1, idb_getBatch_then ["k1"; "k2"] getBatch_onFulfilled)
      ∧ idb this1 = [idb_set "k1" 5; idb_getBatch ["k1"; "k2"]]
      ∧ settle empty_store (idb_getBatch_then ["k1"; "k2"] getBatch_onFulfilled) this1
          = (this3, Fulfilled (<["k1" := None]> (<["k2" := None]> ∅)))
      ∧ cache this3 !! "k2" = Some None.
Proof.
  intros this. split.
  - destruct (getBatch_all_or_nothing ["k1"] this) as (_ & Hwarm & _).
    destruct Hwarm as (result & Hget & Hresult).
    { intros k ->%list_elem_of_singleton. by eexists. }
    exists result. split; [done|].
    by rewrite Hresult.
  - destruct (getBatch_all_or_nothing ["k1"; "k2"] this) as (_ & _ & Hcold).
    destruct Hcold as (this1 & Hget & Hidb & _ & Hanswer).
    { exists "k2". split; [|done]. apply elem_of_cons. right. apply elem_of_cons. by left. }
    destruct (Hanswer empty_store (<["k1" := None]> (<["k2" := None]> ∅)) this1)
      as (this3 & Hsettle & _ & Hin & _); [done|].
    exists this1, this3. split_and!; [done..|].
    by apply Hin.
Defined.

(** C10. When some requested key is missing from memory, what [getBatch]
    returns is the store's answer for the whole list, as it is: the
    entries memory holds for the other keys are not consulted, while
    [get] on such a key returns the memory entry.  So the two disagree
    whenever the store's answer does: right after [set(k, v)], against a
    store that has not committed the write, [get(k)] gives [v] and a
    [getBatch] over [k] and a missing key gives [undefined] for [k]. *)
Theorem getBatch_cold_returns_store_answer {V : Type} :
  (∀ (keys : list string) (this : IdbWithInMemoryCache V) (store : IdbKV V)
     (batch : gmap string (option V)),
     (∃ k, k ∈ keys ∧ cache this !! k = None) →
     answer_getBatch store keys = Fulfilled batch →
     (await store (getBatch keys) this).2 = Fulfilled batch
     ∧ ∀ k, is_Some (cache this !! k) →
         (await store (get k) this).2 = Fulfilled (cache_get k this))
  ∧ (∀ (v : V) (k cold : string), k ≠ cold →
     let this := set k v constructor in
     let store := committed_store ∅ in
     (await store (get k) this).2 = Fulfilled (Some v)
     ∧ ∃ batch, (await store (getBatch [k; cold]) this).2 = Fulfilled batch
                ∧ batch !! k = Some None).
Proof.
  split.
  - intros keys this store batch Hcold%forallb_cache_has_false Hanswer. split.
    + unfold await. rewrite getBatch_cold by done. simpl. by rewrite Hanswer.
    + intros k Hk. unfold await. by rewrite get_warm.
  - intros v k cold Hne this store.
    assert (cache this !! k = Some (Some v)) as Hk by apply lookup_insert_eq.
    assert (cache this !! cold = None) as Hc.
    { simpl. by rewrite lookup_insert_ne. }
    split.
    + unfold await. rewrite get_warm by (by eexists). simpl.
      by rewrite (cache_get_lookup _ _ _ Hk).
    + eexists. split.
      * unfold await. rewrite getBatch_cold; [done|].
        apply forallb_cache_has_false. exists cold. split; [|done].
        apply elem_of_cons. right. apply elem_of_cons. by left.
      * simpl. rewrite lookup_insert_eq. by rewrite lookup_empty.
Qed.

Lemma getBatch_cold_returns_store_answer_witness :
  let this := set "k1" 5 (constructor (V := nat)) in
  (await empty_store (getBatch ["k1"; "k2"]) this).2
    = Fulfilled (<["k1" := None]> (<["k2" := None]> ∅))
  ∧ (await empty_store (get "k1") this).2 = Fulfilled (Some 5).
Proof.
  intros this.
  destruct (@getBatch_cold_returns_store_answer nat) as [Hall _].
  destruct (Hall ["k1"; "k2"] this empty_store (<["k1" := None]> (<["k2" := None]> ∅)))
    as [Hbatch Hget].
  - exists "k2". split; [|done]. apply elem_of_cons. right. apply elem_of_cons. by left.
  - done.
  - split; [done|]. apply (Hget "k1"). by eexists.
Defined.

(** ** Program order and the store's answers *)

(** C2, as stated, fails: after [set(k, v)] on a fresh object, a
    [getBatch] over [k] and a key that is not in memory is answered by a
    store that has not committed the write yet; the callback writes the
    answer over the entry of [k], and the [get(k)] that follows returns
    [undefined] from memory instead of [v]. *)
Lemma set_not_always_visible_counterexample :
  let v := {| post := {| uri := "at://x"; cid := "c1" |};
              lastSeenAt := 0; lastSeenFeed := "home" |} in
  let k := key "at://x" "c1" in
  let cold := key "at://y" "c2" in
  let store := committed_store (V := SeenPost) ∅ in
  let this1 := set k v constructor in
  let this2 := (await store (getBatch [k; cold]) this1).1 in
  (await store (get k) this1).2 = Fulfilled (Some v)
  ∧ (await store (get k) this2).2 = Fulfilled None
  ∧ idb this2 = [idb_set k v; idb_getBatch [k; cold]].
Proof. vm_compute. done. Qed.

(** C2, amended.  After [set(k, v)] the entry of [k] in memory is [v]
    after any steps that do not write it, that is until a later [set] on
    [k] or a store answer for [k] is written back.  A [getBatch] over a
    list with [k] and a key that is not in memory goes to the store and
    writes its answer into memory: the [get(k)] that follows returns,
    from memory, what the store answered for [k], and [v] only if the
    answer had no entry for [k]. *)
Theorem set_visible_until_store_answer {V : Type} (k : string) (v : V)
    (this : IdbWithInMemoryCache V) :
  (∀ steps : list (Step V),
     forallb (λ s, negb (writes k s)) steps = true →
     cache (run steps (set k v this)) !! k = Some (Some v))
  ∧ (∀ (keys : list string) (store : IdbKV V) (batch : gmap string (option V)),
       (∃ cold, cold ∈ keys ∧ cold ≠ k ∧ cache this !! cold = None) →
       answer_getBatch store keys = Fulfilled batch →
       let this1 := set k v this in
       let this2 := (await store (getBatch keys) this1).1 in
       await store (get k) this2
         = (this2, Fulfilled (match batch !! k with
                              | Some value => value
                              | None => Some v
                              end))).
Proof.
  split.
  - intros steps Hsteps. rewrite run_cache_frame by done.
    simpl. apply lookup_insert_eq.
  - intros keys store batch (cold & Hin & Hne & Hcold) Hanswer this1 this2.
    assert (this2 = (getBatch_onFulfilled batch (idb_call (idb_getBatch keys) this1)).1)
      as Hthis2.
    { unfold this2, await. rewrite getBatch_cold.
      - simpl. by rewrite Hanswer.
      - apply forallb_cache_has_false. exists cold. split; [done|].
        simpl. by rewrite lookup_insert_ne. }
    assert (cache this2 !! k
            = Some (match batch !! k with Some value => value | None => Some v end))
      as Hk.
    { rewrite Hthis2, getBatch_onFulfilled_lookup.
      destruct (batch !! k); [done|]. simpl. by rewrite lookup_insert_eq. }
    unfold await. rewrite get_warm by (by eexists). simpl.
    by rewrite (cache_get_lookup _ _ _ Hk).
Qed.

Lemma set_visible_until_store_answer_witness :
  let this1 := set "k1" 5 (constructor (V := nat)) in
  let this2 := (await empty_store (getBatch ["k1"; "k2"]) this1).1 in
  cache (run [step_get "k2"] this1) !! "k1" = Some (Some 5)
  ∧ await empty_store (get "k1") this2 = (this2, Fulfilled None).
Proof.
  intros this1 this2.
  destruct (set_visible_until_store_answer "k1" 5 (constructor (V := nat)))
    as [Hframe Hbatch].
  split.
  - apply (Hframe [step_get "k2"]). reflexivity.
  - assert (∃ cold, cold ∈ ["k1"; "k2"] ∧ cold ≠ "k1"
                      ∧ cache (constructor (V := nat)) !! cold = None) as Hcold.
    { exists "k2". split_and!; [|done..].
      apply elem_of_cons. right. apply elem_of_cons. by left. }
    pose proof (Hbatch ["k1"; "k2"] empty_store
                  (<["k1" := None]> (<["k2" := None]> ∅)) Hcold eq_refl) as Hget.
    cbv zeta in Hget. simplify_map_eq. exact Hget.
Defined.

(** ** Key derivation *)

Lemma append_nil_l (s : string) : "" +:+ s = s.
Proof. reflexivity. Qed.

Lemma append_cons (c : Ascii.ascii) (s1 s2 : string) :
  String c s1 +:+ s2 = String c (s1 +:+ s2).
Proof. reflexivity. Qed.

Lemma no_colon_append_colon (s1 s2 : string) :
  no_colon (s1 +:+ String ":"%char s2) = false.
Proof.
  induction s1 as [|c s1 IH].
  - reflexivity.
  - rewrite append_cons. simpl. rewrite IH. apply andb_false_r.
Qed.

Lemma key_inj_no_colon (uri1 cid1 uri2 cid2 : string) :
  no_colon cid1 = true → no_colon cid2 = true →
  uri1 +:+ String ":"%char cid1 = uri2 +:+ String ":"%char cid2 →
  uri1 = uri2 ∧ cid1 = cid2.
Proof.
  intros Hc1 Hc2. revert uri2.
  induction uri1 as [|a uri1 IH]; intros [|b uri2]; rewrite ?append_nil_l, ?append_cons.
  - intros [= ->]. done.
  - intros [= _ ->]. by rewrite no_colon_append_colon in Hc1.
  - intros [= _ <-]. by rewrite no_colon_append_colon in Hc2.
  - intros [= -> Htail]. destruct (IH _ Htail) as [-> ->]. done.
Qed.

(** C5, as stated, fails: the two pairs of the boundary case are
    different and derive the same key. *)
Lemma key_not_injective_counterexample :
  ("a:b", "c") ≠ ("a", "b:c") ∧ key "a:b" "c" = key "a" "b:c".
Proof. split; [discriminate | reflexivity]. Qed.

(** C5, amended.  The key is a function of the pair alone: the key under
    which [setSeenPost] stores a post is the key [useIsPostSeen] looks up,
    so a post that was just marked is reported seen.  The derivation is
    injective on the pairs whose content identifier has no colon: two such
    pairs with the same key are the same pair. *)
Theorem key_injective_on_colon_free_cid :
  (∀ (p : PostRef) (feed : FeedDescriptor) (now : Z) (store : IdbKV SeenPost)
     (isSeen : bool) (seenPosts : IdbWithInMemoryCache SeenPost),
     (useIsPostSeen p store isSeen (setSeenPost p feed now seenPosts)).2 = true)
  ∧ (∀ uri1 cid1 uri2 cid2 : string,
       no_colon cid1 = true → no_colon cid2 = true →
       key uri1 cid1 = key uri2 cid2 →
       uri1 = uri2 ∧ cid1 = cid2).
Proof.
  split.
  - intros p feed now store isSeen seenPosts.
    unfold useIsPostSeen, await, useIsPostSeen_effect, setSeenPost.
    set (k := key (uri p) (cid p)).
    set (v := {| post := _ |}).
    assert (cache (set k v seenPosts) !! k = Some (Some v)) as Hk
      by apply lookup_insert_eq.
    rewrite get_warm by (by eexists).
    by rewrite (cache_get_lookup _ _ _ Hk).
  - intros uri1 cid1 uri2 cid2 Hc1 Hc2. unfold key.
    apply key_inj_no_colon; done.
Qed.

Lemma key_injective_on_colon_free_cid_witness :
  no_colon "bafyreia" = true
  ∧ key "at://did:plc:x/app.bsky.feed.post/3k" "bafyreia"
      = "at://did:plc:x/app.bsky.feed.post/3k:bafyreia"
  ∧ "at://did:plc:x/app.bsky.feed.post/3k" = "at://did:plc:x/app.bsky.feed.post/3k"
  ∧ "bafyreia" = "bafyreia".
Proof.
  split; [reflexivity|]. split; [reflexivity|].
  apply (proj2 key_injective_on_colon_free_cid) with (cid1 := "bafyreia") (cid2 := "bafyreia");
    reflexivity.
Defined.

(** ** The hooks *)

Section hook_facts.
Implicit Types (seenPosts : IdbWithInMemoryCache SeenPost) (store : IdbKV SeenPost).

Lemma truthy_not_undefined (seenPost : option SeenPost) :
  truthy seenPost = not_undefined seenPost.
Proof. by destruct seenPost. Qed.

(** The [get] calls made for [console.log] never change memory. *)
Lemma logged_gets_cache (keys : list string) seenPosts :
  cache (logged_gets keys seenPosts).1 = cache seenPosts.
Proof.
  revert seenPosts. induction keys as [|k keys IH]; intros seenPosts; simpl; [done|].
  destruct (get k seenPosts) as [seenPosts1 promise] eqn:Hget.
  specialize (IH seenPosts1).
  destruct (logged_gets keys seenPosts1) as [seenPosts2 promises]. simpl in *.
  rewrite IH. unfold get in Hget.
  destruct (cache_has k seenPosts); by inversion Hget.
Qed.

(** With every key in memory they change nothing at all, and each of
    their promises is already resolved. *)
Lemma logged_gets_warm (keys : list string) seenPosts :
  (∀ k, k ∈ keys → is_Some (cache seenPosts !! k)) →
  logged_gets keys seenPosts
    = (seenPosts, map (λ k, Promise_resolve (cache_get k seenPosts)) keys).
Proof.
  induction keys as [|k keys IH]; intros Hall; simpl; [done|].
  rewrite get_warm by (apply Hall, elem_of_cons; by left).
  rewrite IH; [done|]. intros k' Hk'. apply Hall, elem_of_cons. by right.
Qed.

Lemma settle_all_resolved {A : Type} store (values : list A) seenPosts :
  settle_all store (map Promise_resolve values) seenPosts = seenPosts.
Proof. unfold settle_all. by induction values. Qed.

Lemma forallb_cache_has_ext (keys : list string) seenPosts seenPosts' :
  cache seenPosts = cache seenPosts' →
  forallb (λ k, cache_has k seenPosts) keys
    = forallb (λ k, cache_has k seenPosts') keys.
Proof. intros Heq. unfold cache_has. by rewrite Heq. Qed.

(** [isAllSeen]: every value of the mapping is a record. *)
Lemma isAllSeen_true (seenPostMap : gmap string (option SeenPost)) :
  isAllSeen seenPostMap = true ↔
  ∀ k value, seenPostMap !! k = Some value → truthy value = true.
Proof.
  unfold isAllSeen. rewrite forallb_forall. split.
  - intros H k value Hk. apply H, in_map_iff. exists (k, value).
    split; [done|]. by apply list_elem_of_In, elem_of_map_to_list.
  - intros H value ((k & value') & <- & Hin)%in_map_iff.
    apply list_elem_of_In, elem_of_map_to_list in Hin. by apply (H k).
Qed.

(** [useIsPostSeen] on a post whose key is in memory. *)
Lemma useIsPostSeen_warm (p : PostRef) store (isSeen : bool) seenPosts :
  is_Some (cache seenPosts !! key (uri p) (cid p)) →
  useIsPostSeen p store isSeen seenPosts
    = (seenPosts, not_undefined (cache_get (key (uri p) (cid p)) seenPosts)).
Proof.
  intros Hk. unfold useIsPostSeen, await, useIsPostSeen_effect.
  by rewrite get_warm.
Qed.

(** [useIsSliceSeen] on a slice that has items, when every key is in
    memory and when one is not. *)
Lemma useIsSliceSeen_warm (slice : FeedPostSlice) store (isSeen : bool) seenPosts :
  items slice ≠ [] →
  (∀ k, k ∈ slice_keys slice → is_Some (cache seenPosts !! k)) →
  useIsSliceSeen slice store isSeen seenPosts
    = (seenPosts, isAllSeen (getBatch_loop (slice_keys slice) seenPosts ∅).2).
Proof.
  intros Hitems Hall. unfold useIsSliceSeen, useIsSliceSeen_effect.
  destruct (length (slice_keys slice) =? 0)%nat eqn:Hlen.
  { apply Nat.eqb_eq in Hlen. unfold slice_keys in Hlen.
    rewrite length_map in Hlen. by destruct (items slice). }
  rewrite logged_gets_warm by done.
  rewrite getBatch_warm by (by apply forallb_cache_has).
  simpl.
  rewrite <- (map_map (λ k, cache_get k seenPosts) Promise_resolve).
  by rewrite settle_all_resolved.
Qed.

Lemma useIsSliceSeen_cold (slice : FeedPostSlice) store (isSeen : bool) seenPosts :
  (∃ k, k ∈ slice_keys slice ∧ cache seenPosts !! k = None) →
  (useIsSliceSeen slice store isSeen seenPosts).2
    = setIsSeen isSeen
        match answer_getBatch store (slice_keys slice) with
        | Fulfilled batch => Fulfilled (isAllSeen batch)
        | Rejected reason => Rejected reason
        end.
Proof.
  intros Hcold. unfold useIsSliceSeen, useIsSliceSeen_effect.
  destruct (length (slice_keys slice) =? 0)%nat eqn:Hlen.
  { apply Nat.eqb_eq in Hlen. destruct Hcold as (k & Hk & _).
    destruct (slice_keys slice); [by apply elem_of_nil in Hk | done]. }
  pose proof (logged_gets_cache (slice_keys slice) seenPosts) as Hcache.
  destruct (logged_gets (slice_keys slice) seenPosts) as [seenPosts1 logged].
  simpl in Hcache.
  rewrite getBatch_cold.
  2:{ rewrite (forallb_cache_has_ext _ _ seenPosts) by done.
      by apply forallb_cache_has_false. }
  simpl.
  destruct (answer_getBatch store (slice_keys slice)) as [batch|reason]; [|done].
  done.
Qed.

End hook_facts.

(** ** Failures of the store *)

(** C6, as stated, fails: against a store whose reads reject, [get] and
    [getBatch] on a key that is not in memory give a rejected promise,
    not one resolved to [undefined]; and a hook that reported "seen"
    before keeps reporting it, since its [then] callback never runs. *)
Lemma store_failure_not_absorbed_counterexample :
  let store := failing_store (V := SeenPost) "UnknownError" in
  let p := {| uri := "at://x"; cid := "c1" |} in
  let k := key "at://x" "c1" in
  (await store (get k) constructor).2 = Rejected "UnknownError"
  ∧ (await store (get k) constructor).2 ≠ Fulfilled None
  ∧ (await store (getBatch [k]) constructor).2 = Rejected "UnknownError"
  ∧ (useIsPostSeen p store true constructor).2 = true
  ∧ (useIsSliceSeen {| items := [ {| item_post := p |} ] |} store true constructor).2 = true.
Proof. vm_compute. split_and!; done. Qed.

(** C6, amended.  When the read the store receives is rejected, the
    promise of [get] (on a key that is not in memory) and of [getBatch]
    (on a list with such a key) is rejected with the same reason, and
    memory is left as it was; the hooks attach no rejection handler, so
    [setIsSeen] is not called and the hook goes on reporting the value it
    reported before, which is "not seen" on the first run. *)
Theorem store_failure_rejects (store : IdbKV SeenPost) (reason : string)
    (seenPosts : IdbWithInMemoryCache SeenPost) :
  (∀ k, cache seenPosts !! k = None →
        answer_get store k = Rejected reason →
        await store (get k) seenPosts
          = (idb_call (idb_get k) seenPosts, Rejected reason))
  ∧ (∀ keys, (∃ k, k ∈ keys ∧ cache seenPosts !! k = None) →
        answer_getBatch store keys = Rejected reason →
        await store (getBatch keys) seenPosts
          = (idb_call (idb_getBatch keys) seenPosts, Rejected reason))
  ∧ (∀ (p : PostRef) (isSeen : bool),
        cache seenPosts !! key (uri p) (cid p) = None →
        answer_get store (key (uri p) (cid p)) = Rejected reason →
        (useIsPostSeen p store isSeen seenPosts).2 = isSeen)
  ∧ (∀ (slice : FeedPostSlice) (isSeen : bool),
        (∃ k, k ∈ slice_keys slice ∧ cache seenPosts !! k = None) →
        answer_getBatch store (slice_keys slice) = Rejected reason →
        (useIsSliceSeen slice store isSeen seenPosts).2 = isSeen).
Proof.
  split_and!.
  - intros k Hcold Hanswer. unfold await. rewrite get_cold by done.
    simpl. by rewrite Hanswer.
  - intros keys Hcold%forallb_cache_has_false Hanswer. unfold await.
    rewrite getBatch_cold by done. simpl. by rewrite Hanswer.
  - intros p isSeen Hcold Hanswer.
    unfold useIsPostSeen, await, useIsPostSeen_effect.
    rewrite get_cold by done. simpl. by rewrite Hanswer.
  - intros slice isSeen Hcold Hanswer.
    rewrite useIsSliceSeen_cold by done. by rewrite Hanswer.
Qed.

Lemma store_failure_rejects_witness :
  let store := failing_store (V := SeenPost) "UnknownError" in
  let p := {| uri := "at://x"; cid := "c1" |} in
  await store (get (key "at://x" "c1")) constructor
    = (idb_call (idb_get (key "at://x" "c1")) constructor, Rejected "UnknownError")
  ∧ await store (getBatch [key "at://x" "c1"]) constructor
    = (idb_call (idb_getBatch [key "at://x" "c1"]) constructor, Rejected "UnknownError")
  ∧ (useIsPostSeen p store false constructor).2 = false
  ∧ (useIsSliceSeen {| items := [ {| item_post := p |} ] |} store false constructor).2 = false.
Proof.
  intros store p.
  destruct (store_failure_rejects store "UnknownError" constructor)
    as (Hget & Hbatch & Hpost & Hslice).
  split_and!.
  - by apply Hget.
  - apply Hbatch; [|done]. exists (key "at://x" "c1").
    split; [by apply list_elem_of_singleton | done].
  - by apply (Hpost p false).
  - apply (Hslice {| items := [ {| item_post := p |} ] |} false); [|done].
    exists (key "at://x" "c1"). split; [by apply list_elem_of_singleton | done].
Defined.

(** ** Slices *)

(** C8. With no item, the effect of [useIsSliceSeen] returns before any
    call on the cache: the object is the same, no promise was made, and
    the hook reports the value it reported before. *)
Theorem useIsSliceSeen_empty (slice : FeedPostSlice) (store : IdbKV SeenPost)
    (isSeen : bool) (seenPosts : IdbWithInMemoryCache SeenPost) :
  items slice = [] →
  useIsSliceSeen_effect slice seenPosts = (seenPosts, [], None)
  ∧ useIsSliceSeen slice store isSeen seenPosts = (seenPosts, isSeen).
Proof.
  intros Hitems. unfold useIsSliceSeen, useIsSliceSeen_effect, slice_keys.
  by rewrite Hitems.
Qed.

Lemma useIsSliceSeen_empty_witness :
  let seenPosts := setSeenPost {| uri := "at://x"; cid := "c1" |} "home" 0 constructor in
  useIsSliceSeen {| items := [] |} (committed_store ∅) true seenPosts = (seenPosts, true)
  ∧ useIsSliceSeen {| items := [] |} (committed_store ∅) false seenPosts = (seenPosts, false).
Proof.
  intros seenPosts. split.
  - by apply (useIsSliceSeen_empty {| items := [] |} (committed_store ∅) true seenPosts).
  - by apply (useIsSliceSeen_empty {| items := [] |} (committed_store ∅) false seenPosts).
Defined.

(** C7, as stated, fails: a post was just marked seen and the store has
    not committed the write; a second post is committed in the store and
    not in memory.  Each post alone is reported seen, the slice of the two
    is reported not seen. *)
Lemma slice_not_conjunction_counterexample :
  let p1 := {| uri := "at://x"; cid := "c1" |} in
  let p2 := {| uri := "at://y"; cid := "c2" |} in
  let store :=
    committed_store
      {[ key "at://y" "c2" :=
           {| post := p2; lastSeenAt := 0; lastSeenFeed := "home" |} ]} in
  let seenPosts := setSeenPost p1 "home" 1 constructor in
  let slice := {| items := [ {| item_post := p1 |}; {| item_post := p2 |} ] |} in
  (useIsPostSeen p1 store false seenPosts).2 = true
  ∧ (useIsPostSeen p2 store false seenPosts).2 = true
  ∧ (useIsSliceSeen slice store false seenPosts).2 = false.
Proof. vm_compute. done. Qed.

(** C7, amended.  For a slice that has items: when the key of every item
    is in memory, [useIsSliceSeen] reports true exactly when
    [useIsPostSeen] reports true for every item, over the same object;
    when the key of some item is not in memory, it reports whether every
    value of the store's answer to the [getBatch] of the whole list is a
    record. *)
Theorem useIsSliceSeen_conjunction (slice : FeedPostSlice) (store : IdbKV SeenPost)
    (isSeen : bool) (seenPosts : IdbWithInMemoryCache SeenPost) :
  items slice ≠ [] →
  ((∀ k, k ∈ slice_keys slice → is_Some (cache seenPosts !! k)) →
   ∀ prior : bool,
     (useIsSliceSeen slice store isSeen seenPosts).2
       = forallb (λ item, (useIsPostSeen (item_post item) store prior seenPosts).2)
           (items slice))
  ∧ (∀ batch,
       (∃ k, k ∈ slice_keys slice ∧ cache seenPosts !! k = None) →
       answer_getBatch store (slice_keys slice) = Fulfilled batch →
       (useIsSliceSeen slice store isSeen seenPosts).2 = isAllSeen batch).
Proof.
  intros Hitems. split.
  - intros Hall prior. rewrite useIsSliceSeen_warm by done. simpl.
    apply eq_true_iff_eq. rewrite isAllSeen_true, forallb_forall. split.
    + intros H item Hitem%list_elem_of_In.
      assert (key (uri (item_post item)) (cid (item_post item)) ∈ slice_keys slice) as Hk.
      { unfold slice_keys. apply list_elem_of_fmap. by exists item. }
      rewrite useIsPostSeen_warm by (by apply Hall). simpl.
      destruct (Hall _ Hk) as [value Hvalue].
      rewrite (cache_get_lookup _ _ _ Hvalue), <- truthy_not_undefined.
      apply (H (key (uri (item_post item)) (cid (item_post item)))).
      rewrite getBatch_loop_lookup by (by apply forallb_cache_has).
      by rewrite decide_True.
    + intros H k value.
      rewrite getBatch_loop_lookup by (by apply forallb_cache_has).
      destruct (decide (k ∈ slice_keys slice)) as [Hk|]; [|done].
      intros Hvalue. unfold slice_keys in Hk.
      apply list_elem_of_fmap in Hk as (item & -> & Hitem).
      specialize (H item). rewrite useIsPostSeen_warm in H by (by eexists).
      simpl in H. rewrite (cache_get_lookup _ _ _ Hvalue) in H.
      rewrite truthy_not_undefined. apply H. by apply list_elem_of_In.
  - intros batch Hcold Hanswer.
    rewrite useIsSliceSeen_cold by done. by rewrite Hanswer.
Qed.

Lemma useIsSliceSeen_conjunction_witness :
  let p1 := {| uri := "at://x"; cid := "c1" |} in
  let p2 := {| uri := "at://y"; cid := "c2" |} in
  let store := committed_store (V := SeenPost) ∅ in
  let seenPosts := setSeenPost p1 "home" 1 constructor in
  (useIsSliceSeen {| items := [ {| item_post := p1 |} ] |} store false seenPosts).2
    = forallb (λ item, (useIsPostSeen (item_post item) store false seenPosts).2)
        [ {| item_post := p1 |} ]
  ∧ (useIsSliceSeen {| items := [ {| item_post := p1 |}; {| item_post := p2 |} ] |}
       store true seenPosts).2
    = isAllSeen (<[key "at://x" "c1" := None]> (<[key "at://y" "c2" := None]> ∅)).
Proof.
  intros p1 p2 store seenPosts. split.
  - refine (proj1 (useIsSliceSeen_conjunction
                     {| items := [ {| item_post := p1 |} ] |} store false seenPosts _) _ false).
    + done.
    + intros k ->%list_elem_of_singleton. by eexists.
  - refine (proj2 (useIsSliceSeen_conjunction
                     {| items := [ {| item_post := p1 |}; {| item_post := p2 |} ] |}
                     store true seenPosts _) _ _ _).
    + done.
    + exists (key "at://y" "c2"). split; [|done].
      apply elem_of_cons. right. apply elem_of_cons. by left.
    + done.
Defined.

(** ** Alt text *)

Module AltTextFacts.
Import AltText.

Lemma length_append (s1 s2 : string) :
  String.length (s1 +:+ s2) = String.length s1 + String.length s2.
Proof.
  induction s1 as [|c s1 IH]; [done|].
  rewrite append_cons. simpl. by rewrite IH.
Qed.

Lemma length_substring0 (n : nat) (s : string) :
  n ≤ String.length s → String.length (substring0 n s) = n.
Proof.
  unfold substring0. revert s.
  induction n as [|n IH]; intros [|c s]; simpl; intros Hn; try done; try lia.
  rewrite IH; [done | lia].
Qed.

Lemma length_substring0_le (n : nat) (s : string) :
  String.length (substring0 n s) ≤ n.
Proof.
  unfold substring0. revert s.
  induction n as [|n IH]; intros [|c s]; simpl; try lia.
  specialize (IH s). lia.
Qed.

Lemma length_condensedNote : String.length condensedNote = 85.
Proof. reflexivity. Qed.

(** The fallback of [condenseAltText] never has more than 2000
    characters, and has exactly 2000 on a text that was too long. *)
Lemma length_truncated_le (originalText : string) :
  String.length (truncated originalText) ≤ MAX_ALT_TEXT_LENGTH.
Proof.
  unfold truncated. rewrite length_append.
  pose proof (length_substring0_le (MAX_ALT_TEXT_LENGTH - 3) originalText) as Hle.
  change (String.length "...") with 3.
  change (MAX_ALT_TEXT_LENGTH - 3) with 1997 in *.
  change MAX_ALT_TEXT_LENGTH with 2000. lia.
Qed.

Lemma length_truncated (originalText : string) :
  MAX_ALT_TEXT_LENGTH < String.length originalText →
  String.length (truncated originalText) = MAX_ALT_TEXT_LENGTH.
Proof.
  intros Hlong. unfold truncated. rewrite length_append.
  change (MAX_ALT_TEXT_LENGTH - 3) with 1997.
  change MAX_ALT_TEXT_LENGTH with 2000 in *.
  rewrite length_substring0 by lia. reflexivity.
Qed.

Lemma truthy_string_Some (url : string) :
  url ≠ "" → truthy_string (Some url) = Some url.
Proof. by destruct url. Qed.

(** [condenseAltText] with the proxy configured: the value the service
    delivered, or else the truncation. *)
Lemma condenseAltText_spec (url : string) (fetch : Fetch)
    (originalText : string) (isVideo : bool) :
  url ≠ "" →
  condenseAltText (Some url) fetch originalText isVideo
    = match condensation fetch originalText isVideo with
      | Some condensed => condensed
      | None => js_string (truncated originalText)
      end.
Proof.
  intros Hurl. unfold condenseAltText, condensation.
  rewrite truthy_string_Some by done.
  destruct (fetch _) as [response|e]; [|done].
  destruct (json response) as [responseData|e]; [|done].
  destruct (ok response); [|done].
  by destruct (truthy_field (altText responseData)).
Qed.

(** C9, as stated, fails, in three ways.  The first request is answered
    with a text of 2001 characters.  When the service answers the
    condensation request with a text of 2001 characters, that text is
    returned as it is, above the ceiling.  When the condensation request
    fails, the text is cut to 1997 characters and three dots: truncated,
    not condensed.  And when the first request fails with a network error
    and the second, simplified request is answered with a text of 2001
    characters, that text is returned as it is: above the ceiling, and
    with no condensation asked for. *)
Lemma alt_text_ceiling_counterexample :
  let reply (t : string) : Thrown Response :=
    returned {| ok := true; status := 200; statusText := "OK";
                json := returned {| altText := Some (js_string t); error := None |};
                text := returned "" |} in
  let failed : Thrown Response :=
    threw {| name := "TypeError"; message := "Failed to fetch" |} in
  let verbose : Fetch := λ _, reply (letters 2001) in
  let unreachable : Fetch := λ body,
    match body with
    | condensingRequest _ _ _ _ => failed
    | _ => reply (letters 2001)
    end in
  let second_try : Fetch := λ body,
    match body with
    | simpleRequestBody _ _ _ _ _ => reply (letters 2001)
    | _ => failed
    end in
  let run (fetch : Fetch) :=
    generateAltTextViaProxy (Some "https://proxy.example/alt") fetch
      (returned ("iVBORw0KGgo=", "image/png")) false in
  run verbose = port_altText (js_string (letters 2001))
  ∧ MAX_ALT_TEXT_LENGTH < String.length (letters 2001)
  ∧ run unreachable = port_altText (js_string (letters 1997 +:+ "..."))
  ∧ run second_try = port_altText (js_string (letters 2001)).
Proof. vm_compute. split_and!; [done | lia | done | done]. Qed.

(** C9, amended.  For an ok response of the first request whose
    [altText] is a string of more than 2000 characters,
    [generateAltTextViaProxy] sends the service a condensation request
    (operation [condense_text], target length 1900) and builds its result
    from the reply.  When the request fails, the result is the
    truncation of the text, of exactly 2000 characters, without the note.
    When the reply delivers a string of at most 2000 characters, that
    string is the result, for a video with the note in front exactly when
    note and string together have at most 2000 characters; the result
    then has at most 2000 characters. *)
Theorem long_alt_text_condensed_else_truncated (url : string) (fetch : Fetch)
    (base64Data mimeType : string) (isVideo : bool)
    (proxyResponse : Response) (responseData : ResponseData) (altText0 : string) :
  url ≠ "" →
  url ≠ "YOUR_FUNCTION_URL_HERE" →
  fetch (proxyRequestBody base64Data mimeType isVideo
           (fileName_of mimeType isVideo) (String.length base64Data))
    = returned proxyResponse →
  ok proxyResponse = true →
  json proxyResponse = returned responseData →
  altText responseData = Some (js_string altText0) →
  MAX_ALT_TEXT_LENGTH < String.length altText0 →
  (∃ directive text,
     condensing_body altText0 isVideo
       = condensingRequest "condense_text" directive text 1900)
  ∧ (condensation fetch altText0 isVideo = None →
     generateAltTextViaProxy (Some url) fetch (returned (base64Data, mimeType)) isVideo
       = port_altText (js_string (truncated altText0))
     ∧ String.length (truncated altText0) = MAX_ALT_TEXT_LENGTH)
  ∧ (∀ condensed : string,
       condensation fetch altText0 isVideo = Some (js_string condensed) →
       String.length condensed ≤ MAX_ALT_TEXT_LENGTH →
       let result :=
         if isVideo
            && (String.length condensed + String.length condensedNote
                <=? MAX_ALT_TEXT_LENGTH)%nat
         then condensedNote +:+ condensed
         else condensed in
       generateAltTextViaProxy (Some url) fetch (returned (base64Data, mimeType)) isVideo
         = port_altText (js_string result)
       ∧ String.length result ≤ MAX_ALT_TEXT_LENGTH).
Proof.
  intros Hurl Hurl' Hfetch Hok Hjson HaltText Hlong.
  assert (generateAltTextViaProxy (Some url) fetch (returned (base64Data, mimeType)) isVideo
          = match on_proxy_data (Some url) fetch isVideo responseData with
            | returned portResponse => portResponse
            | threw e => on_fetch_error fetch e base64Data mimeType isVideo
            end) as ->.
  { unfold generateAltTextViaProxy. rewrite truthy_string_Some by done.
    apply String.eqb_neq in Hurl'. by rewrite Hurl', Hfetch, Hok, Hjson. }
  unfold on_proxy_data. rewrite HaltText.
  apply Nat.ltb_lt in Hlong as Hlong'. rewrite Hlong'.
  rewrite condenseAltText_spec by done.
  split_and!.
  - by eexists _, _.
  - intros ->. pose proof (length_truncated altText0 Hlong) as Hlen.
    split; [|done]. destruct isVideo; [|done].
    unfold js_note_fits. rewrite Hlen, length_condensedNote.
    change MAX_ALT_TEXT_LENGTH with 2000. by destruct (Nat.leb_spec (2000 + 85) 2000); [lia|].
  - intros condensed -> Hshort. cbv zeta.
    destruct isVideo; simpl andb; [|done].
    unfold js_note_fits, js_after_note.
    destruct (_ <=? _)%nat eqn:Hfits; [|done].
    split; [done|]. apply Nat.leb_le in Hfits. rewrite length_append. lia.
Qed.

Lemma long_alt_text_condensed_else_truncated_witness :
  let reply (t : string) : Thrown Response :=
    returned {| ok := true; status := 200; statusText := "OK";
                json := returned {| altText := Some (js_string t); error := None |};
                text := returned "" |} in
  let concise : Fetch := λ body,
    match body with
    | condensingRequest _ _ _ _ => reply "A cat on a sofa."
    | _ => reply (letters 2001)
    end in
  generateAltTextViaProxy (Some "https://proxy.example/alt") concise
    (returned ("iVBORw0KGgo=", "image/png")) true
  = port_altText (js_string (condensedNote +:+ "A cat on a sofa.")).
Proof.
  intros reply concise.
  destruct (long_alt_text_condensed_else_truncated
              "https://proxy.example/alt" concise "iVBORw0KGgo=" "image/png" true
              {| ok := true; status := 200; statusText := "OK";
                 json := returned {| altText := Some (js_string (letters 2001));
                                     error := None |};
                 text := returned "" |}
              {| altText := Some (js_string (letters 2001)); error := None |}
              (letters 2001))
    as (_ & _ & Hcondensed).
  - done.
  - done.
  - reflexivity.
  - reflexivity.
  - reflexivity.
  - reflexivity.
  - vm_compute. lia.
  - destruct (Hcondensed "A cat on a sofa.") as [Hresult _].
    + reflexivity.
    + vm_compute. lia.
    + exact Hresult.
Defined.

End AltTextFacts.


(** * Further properties of the cache *)

Section cache_runs.
Context {V : Type}.
Implicit Types (this : IdbWithInMemoryCache V) (k : string).

(** What one step appends to the calls of the store. *)
Lemma step_idb (s : Step V) this :
  ∃ calls,
    idb (step s this) = idb this ++ calls
    ∧ length calls ≤ 1
    ∧ List.filter is_idb_set calls = sets_of [s].
Proof.
  destruct s as [k' v|k'|k' v|keys|batch]; unfold step.
  - exists [idb_set k' v]. split_and!; [done | simpl; lia | done].
  - unfold get. destruct (cache_has k' this).
    + exists []. rewrite app_nil_r. split_and!; [done | simpl; lia | done].
    + exists [idb_get k']. split_and!; [done | simpl; lia | done].
  - exists []. rewrite app_nil_r. split_and!; [done | simpl; lia | done].
  - unfold getBatch. destruct (getBatch_loop keys this ∅) as [[] ?].
    + exists []. rewrite app_nil_r. split_and!; [done | simpl; lia | done].
    + exists [idb_getBatch keys]. split_and!; [done | simpl; lia | done].
  - exists []. destruct (getBatch_onFulfilled_spec batch this) as (_ & -> & _).
    rewrite app_nil_r. split_and!; [done | simpl; lia | done].
Qed.

(** X1. Nothing is ever evicted: whatever calls and callbacks run, every
    key that is in memory stays in memory, and memory never gets
    smaller. *)
Theorem run_never_evicts (steps : list (Step V)) this :
  dom (cache this) ⊆ dom (cache (run steps this))
  ∧ size (cache this) ≤ size (cache (run steps this)).
Proof.
  assert (dom (cache this) ⊆ dom (cache (run steps this))) as Hdom.
  { intros k Hk%elem_of_dom. apply elem_of_dom. by apply run_cache_mono. }
  split; [done|].
  rewrite <- !size_dom. by apply subseteq_size.
Qed.

(** X2. No write is lost or reordered on its way to the store: over any
    run, the calls the store received are only extended, by at most one
    call per step, and the writes among the new calls are exactly the
    [set] calls of the run, in program order. *)
Theorem run_forwards_every_set (steps : list (Step V)) this :
  ∃ calls,
    idb (run steps this) = idb this ++ calls
    ∧ length calls ≤ length steps
    ∧ List.filter is_idb_set calls = sets_of steps.
Proof.
  revert this. induction steps as [|s steps IH]; intros this.
  - exists []. by rewrite app_nil_r.
  - destruct (step_idb s this) as (calls1 & Hidb1 & Hlen1 & Hsets1).
    destruct (IH (step s this)) as (calls2 & Hidb2 & Hlen2 & Hsets2).
    exists (calls1 ++ calls2). split_and!.
    + change (run (s :: steps) this) with (run steps (step s this)).
      by rewrite Hidb2, Hidb1, app_assoc.
    + rewrite length_app. simpl. lia.
    + rewrite List.filter_app, Hsets1, Hsets2.
      unfold sets_of. simpl. by destruct s.
Qed.

(** X3. A [set] that comes in while a [get] of the same key is waiting
    for the store does not survive the answer: the callback of [get]
    writes the store's answer over the entry, so memory, and every later
    [get], has the store's answer and not the value that was set, although
    the write was sent to the store. *)
Theorem set_during_pending_get_is_overwritten k (v : V) this
    (store : IdbKV V) (value : option V) :
  cache this !! k = None →
  answer_get store k = Fulfilled value →
  ∃ this1 promise this3,
    get k this = (this1, promise)
    ∧ settle store promise (set k v this1) = (this3, Fulfilled value)
    ∧ idb this3 = idb this ++ [idb_get k; idb_set k v]
    ∧ cache this3 !! k = Some value
    ∧ ∀ store' : IdbKV V, await store' (get k) this3 = (this3, Fulfilled value).
Proof.
  intros Hcold Hanswer.
  eexists _, _, _. split; [by apply get_cold|].
  simpl. rewrite Hanswer.
  split_and!; [done | | |].
  - simpl. by rewrite <- app_assoc.
  - simpl. apply lookup_insert_eq.
  - intros store'. unfold await. rewrite get_warm.
    + simpl. unfold cache_get. simpl. by rewrite lookup_insert_eq.
    + simpl. rewrite lookup_insert_eq. by eexists.
Qed.

(** X4. A batch read fills memory.  Once the store has answered a
    [getBatch] that had a missing key, [get] on any key of the answer is
    served from memory with the answered value.  If the answer and the
    earlier memory together cover the list, a second [getBatch] of the
    list is served from memory too, with the answered values.  If the
    answer leaves out a key that memory did not have, a second
    [getBatch] of the list goes to the store again. *)
Theorem getBatch_answer_fills_memory (keys : list string) this
    (store : IdbKV V) (batch : gmap string (option V)) :
  (∃ k, k ∈ keys ∧ cache this !! k = None) →
  answer_getBatch store keys = Fulfilled batch →
  let this' := (await store (getBatch keys) this).1 in
  (∀ k value, batch !! k = Some value →
     ∀ store' : IdbKV V, await store' (get k) this' = (this', Fulfilled value))
  ∧ ((∀ k, k ∈ keys → is_Some (batch !! k) ∨ is_Some (cache this !! k)) →
     ∀ store' : IdbKV V, ∃ result,
       await store' (getBatch keys) this' = (this', Fulfilled result)
       ∧ ∀ k, k ∈ keys →
           result !! k = match batch !! k with
                         | Some value => Some value
                         | None => cache this !! k
                         end)
  ∧ ((∃ k, k ∈ keys ∧ batch !! k = None ∧ cache this !! k = None) →
     (getBatch keys this').1 = idb_call (idb_getBatch keys) this').
Proof.
  intros Hcold%forallb_cache_has_false Hanswer this'.
  assert (this' = (getBatch_onFulfilled batch (idb_call (idb_getBatch keys) this)).1)
    as Hthis'.
  { unfold this', await. rewrite getBatch_cold by done. simpl. by rewrite Hanswer. }
  assert (∀ k, cache this' !! k = match batch !! k with
                                  | Some value => Some value
                                  | None => cache this !! k
                                  end) as Hlookup.
  { intros k. by rewrite Hthis', getBatch_onFulfilled_lookup. }
  split_and!.
  - intros k value Hk store'.
    assert (cache this' !! k = Some value) as Hk' by (by rewrite Hlookup, Hk).
    unfold await. rewrite get_warm by (by eexists). simpl.
    by rewrite (cache_get_lookup _ _ _ Hk').
  - intros Hcover store'.
    assert (forallb (λ k, cache_has k this') keys = true) as Hwarm.
    { apply forallb_cache_has. intros k Hk. rewrite Hlookup.
      destruct (Hcover k Hk) as [[value Hb]|Hm]; [rewrite Hb; by eexists|].
      by destruct (batch !! k). }
    eexists. unfold await. rewrite getBatch_warm by done. split; [done|].
    intros k Hk. rewrite getBatch_loop_lookup by done.
    by rewrite decide_True, Hlookup.
  - intros (k & Hk & Hb & Hm).
    rewrite getBatch_cold; [done|].
    apply forallb_cache_has_false. exists k. split; [done|].
    by rewrite Hlookup, Hb.
Qed.

(** X5. When every key of the list is in memory, [getBatch] and [get]
    agree: the mapping binds each key of the list to what [get] on that
    key returns, neither reaches the store, and the mapping only depends
    on which keys the list has, not on their order or repetitions. *)
Theorem getBatch_warm_agrees_with_get (keys : list string) this (store : IdbKV V) :
  (∀ k, k ∈ keys → is_Some (cache this !! k)) →
  ∃ result,
    await store (getBatch keys) this = (this, Fulfilled result)
    ∧ dom result = list_to_set keys
    ∧ (∀ k, k ∈ keys →
         ∃ value, result !! k = Some value
                  ∧ await store (get k) this = (this, Fulfilled value))
    ∧ ∀ keys' : list string,
        (∀ k, k ∈ keys' ↔ k ∈ keys) →
        await store (getBatch keys') this = (this, Fulfilled result).
Proof.
  intros Hall. pose proof Hall as Hwarm%forallb_cache_has.
  eexists. unfold await at 1. rewrite getBatch_warm by done.
  split; [done|]. split_and!.
  - apply set_eq. intros k.
    rewrite elem_of_dom, elem_of_list_to_set, getBatch_loop_lookup by done.
    destruct (decide (k ∈ keys)) as [Hk|Hk].
    + split; [done|]. intros _. by apply Hall.
    + split; [by intros [? ?] | done].
  - intros k Hk. destruct (Hall k Hk) as [value Hvalue]. exists value.
    rewrite getBatch_loop_lookup by done. rewrite decide_True by done.
    split; [done|]. unfold await. rewrite get_warm by (by eexists). simpl.
    by rewrite (cache_get_lookup _ _ _ Hvalue).
  - intros keys' Hsame.
    assert (forallb (λ k, cache_has k this) keys' = true) as Hwarm'.
    { apply forallb_cache_has. intros k Hk. by apply Hall, Hsame. }
    unfold await. rewrite getBatch_warm by done. simpl. do 2 f_equal.
    apply map_eq. intros k. rewrite !getBatch_loop_lookup by done.
    destruct (decide (k ∈ keys')) as [Hk|Hk].
    + by rewrite decide_True by (by apply Hsame).
    + by rewrite decide_False by (by rewrite <- Hsame).
Qed.

End cache_runs.

Lemma set_during_pending_get_is_overwritten_witness :
  ∃ this3,
    settle empty_store (get "k1" constructor).2 (set "k1" 5 (get "k1" constructor).1)
      = (this3, Fulfilled None)
    ∧ idb this3 = [idb_get "k1"; idb_set "k1" 5]
    ∧ await empty_store (get "k1") this3 = (this3, Fulfilled None).
Proof.
  destruct (set_during_pending_get_is_overwritten "k1" 5 constructor empty_store None)
    as (this1 & promise & this3 & Hget & Hsettle & Hidb & _ & Hlater);
    [reflexivity | reflexivity |].
  exists this3. rewrite Hget. simpl. split_and!; [done | done |]. apply Hlater.
Defined.

Lemma getBatch_answer_fills_memory_witness :
  let this' := (await empty_store (getBatch ["k1"; "k2"]) (set "k1" 5 constructor)).1 in
  await empty_store (get "k2") this' = (this', Fulfilled None)
  ∧ ∃ result, await empty_store (getBatch ["k1"; "k2"]) this' = (this', Fulfilled result).
Proof.
  intros this'.
  assert (∃ k, k ∈ ["k1"; "k2"] ∧ cache (set "k1" 5 (constructor (V := nat))) !! k = None)
    as Hcold.
  { exists "k2". split; [|done]. apply elem_of_cons. right. apply elem_of_cons. by left. }
  destruct (getBatch_answer_fills_memory ["k1"; "k2"] (set "k1" 5 constructor) empty_store
              (<["k1" := None]> (<["k2" := None]> ∅)) Hcold eq_refl)
    as (Hget & Hagain & _).
  split.
  - by apply (Hget "k2" None).
  - destruct (Hagain) with (store' := empty_store) as (result & Hresult & _).
    + intros k Hk. left.
      apply elem_of_cons in Hk as [->|Hk]; [by eexists|].
      apply list_elem_of_singleton in Hk as ->. by eexists.
    + by exists result.
Defined.

Lemma getBatch_warm_agrees_with_get_witness :
  let this := set "k2" 6 (set "k1" 5 constructor) in
  ∃ result,
    await empty_store (getBatch ["k1"; "k2"]) this = (this, Fulfilled result)
    ∧ await empty_store (getBatch ["k2"; "k1"; "k2"]) this = (this, Fulfilled result).
Proof.
  intros this.
  destruct (getBatch_warm_agrees_with_get ["k1"; "k2"] this empty_store)
    as (result & Hresult & _ & _ & Hsame).
  - intros k Hk.
    apply elem_of_cons in Hk as [->|Hk]; [by eexists|].
    apply list_elem_of_singleton in Hk as ->. by eexists.
  - exists result. split; [done|]. apply Hsame. intros k.
    rewrite !elem_of_cons, !elem_of_nil. tauto.
Defined.

(** * Further properties of the tracker *)

Section tracker_runs.
Implicit Types (seenPosts : IdbWithInMemoryCache SeenPost) (store : IdbKV SeenPost).

Lemma filter_missing_nil (keys : list string) seenPosts :
  List.filter (λ k, negb (cache_has k seenPosts)) keys = []
  ↔ forallb (λ k, cache_has k seenPosts) keys = true.
Proof.
  induction keys as [|k keys IH]; simpl; [done|].
  destruct (cache_has k seenPosts); simpl; [done|]. split; discriminate.
Qed.

(** The [get] calls made for [console.log] send one read for every
    occurrence of a key that is not in memory. *)
Lemma logged_gets_idb (keys : list string) seenPosts :
  idb (logged_gets keys seenPosts).1
    = idb seenPosts
      ++ map idb_get (List.filter (λ k, negb (cache_has k seenPosts)) keys).
Proof.
  revert seenPosts. induction keys as [|k keys IH]; intros seenPosts; simpl.
  - by rewrite app_nil_r.
  - unfold get. destruct (cache_has k seenPosts) eqn:Hk; simpl.
    + specialize (IH seenPosts).
      destruct (logged_gets keys seenPosts) as [seenPosts2 promises]. done.
    + specialize (IH (idb_call (idb_get k) seenPosts)).
      destruct (logged_gets keys (idb_call (idb_get k) seenPosts))
        as [seenPosts2 promises].
      simpl in *. rewrite IH. by rewrite <- app_assoc.
Qed.

(** X6. One run of the effect of [useIsSliceSeen] never writes memory
    before the store answers, and sends to the store one [get] for every
    occurrence of a key of the slice that is not in memory (from the
    [seenPosts.get] calls inside [console.log]), followed, if there was
    such a key, by one [getBatch] of the whole list; with every key in
    memory it sends nothing. *)
Theorem useIsSliceSeen_effect_reads (slice : FeedPostSlice) seenPosts :
  let keys := slice_keys slice in
  let missing := List.filter (λ k, negb (cache_has k seenPosts)) keys in
  let seenPosts' := (useIsSliceSeen_effect slice seenPosts).1.1 in
  cache seenPosts' = cache seenPosts
  ∧ idb seenPosts'
    = idb seenPosts ++ map idb_get missing
      ++ match missing with
         | [] => []
         | _ :: _ => [idb_getBatch keys]
         end.
Proof.
  intros keys missing seenPosts'. unfold seenPosts', useIsSliceSeen_effect.
  fold keys.
  destruct (length keys =? 0)%nat eqn:Hlen.
  { apply Nat.eqb_eq in Hlen. subst missing.
    destruct keys; [|done]. simpl. by rewrite app_nil_r. }
  pose proof (logged_gets_cache keys seenPosts) as Hcache.
  pose proof (logged_gets_idb keys seenPosts) as Hidb. fold missing in Hidb.
  destruct (logged_gets keys seenPosts) as [seenPosts1 logged]. simpl in Hcache, Hidb.
  destruct (forallb (λ k, cache_has k seenPosts) keys) eqn:Hwarm.
  - rewrite getBatch_warm by (by rewrite (forallb_cache_has_ext _ _ seenPosts)).
    simpl. apply filter_missing_nil in Hwarm. fold missing in Hwarm.
    rewrite Hidb, Hwarm. done.
  - rewrite getBatch_cold by (by rewrite (forallb_cache_has_ext _ _ seenPosts)).
    simpl. rewrite Hidb, <- app_assoc.
    destruct missing eqn:Hmissing; [|done].
    apply filter_missing_nil in Hmissing. congruence.
Qed.

(** X7. What [useIsPostSeen] reports sticks.  Once the store has
    answered the read of a post that was not in memory, with a record or
    with [undefined], every later run of the hook for that post reports
    the same, from memory and with no call to the store, whatever the
    store holds by then, as long as the entry was not rewritten. *)
Theorem useIsPostSeen_sticky (p : PostRef) store (isSeen : bool) seenPosts
    (value : option SeenPost) :
  cache seenPosts !! key (uri p) (cid p) = None →
  answer_get store (key (uri p) (cid p)) = Fulfilled value →
  ∃ seenPosts1,
    useIsPostSeen p store isSeen seenPosts = (seenPosts1, not_undefined value)
    ∧ idb seenPosts1 = idb seenPosts ++ [idb_get (key (uri p) (cid p))]
    ∧ ∀ (steps : list (Step SeenPost)) store' (isSeen' : bool),
        forallb (λ s, negb (writes (key (uri p) (cid p)) s)) steps = true →
        useIsPostSeen p store' isSeen' (run steps seenPosts1)
          = (run steps seenPosts1, not_undefined value).
Proof.
  intros Hcold Hanswer. eexists. split_and!.
  - unfold useIsPostSeen, await, useIsPostSeen_effect.
    rewrite get_cold by done. simpl. by rewrite Hanswer.
  - done.
  - intros steps store' isSeen' Hsteps.
    set (seenPosts2 := run steps _).
    assert (cache seenPosts2 !! key (uri p) (cid p) = Some value) as Hk.
    { unfold seenPosts2. rewrite run_cache_frame by done. apply lookup_insert_eq. }
    rewrite useIsPostSeen_warm by (by eexists).
    by rewrite (cache_get_lookup _ _ _ Hk).
Qed.

(** Once the store has answered them, the reads made for [console.log]
    have put every key of the list in memory. *)
Lemma settle_all_logged_fills (keys : list string) store seenPosts seenPosts' :
  (∀ k, k ∈ keys → ∃ value, answer_get store k = Fulfilled value) →
  (∀ k, is_Some (cache seenPosts !! k) → is_Some (cache seenPosts' !! k)) →
  (∀ k, is_Some (cache seenPosts' !! k) →
        is_Some (cache (settle_all store (logged_gets keys seenPosts).2 seenPosts') !! k))
  ∧ (∀ k, k ∈ keys →
        is_Some (cache (settle_all store (logged_gets keys seenPosts).2 seenPosts') !! k))
  ∧ idb (settle_all store (logged_gets keys seenPosts).2 seenPosts') = idb seenPosts'.
Proof.
  revert seenPosts seenPosts'.
  induction keys as [|k0 keys IH]; intros seenPosts seenPosts' Hanswers Hincl.
  { split_and!; [done | | done]. by intros k ?%elem_of_nil. }
  assert (∀ k, k ∈ keys → ∃ value, answer_get store k = Fulfilled value) as Hanswers'.
  { intros k Hk. apply Hanswers, elem_of_cons. by right. }
  simpl. unfold get. destruct (cache_has k0 seenPosts) eqn:Hk0.
  - destruct (IH seenPosts seenPosts' Hanswers' Hincl) as (Hmono & Hkeys & Hidb).
    destruct (logged_gets keys seenPosts) as [seenPosts2 promises]. simpl in *.
    split_and!; [done | | done].
    intros k [->|Hk]%elem_of_cons; [|by apply Hkeys].
    by apply Hmono, Hincl, cache_has_true.
  - destruct (Hanswers k0) as [value Hvalue]; [apply elem_of_cons; by left|].
    destruct (IH (idb_call (idb_get k0) seenPosts) (cache_set k0 value seenPosts'))
      as (Hmono & Hkeys & Hidb); [done | |].
    { intros k Hk. simpl. rewrite lookup_insert.
      case_decide; [by eexists | by apply Hincl]. }
    destruct (logged_gets keys (idb_call (idb_get k0) seenPosts))
      as [seenPosts2 promises].
    simpl in *. rewrite Hvalue. simpl. split_and!; [| | done].
    + intros k Hk. apply Hmono. rewrite lookup_insert.
      case_decide; [by eexists | done].
    + intros k [->|Hk]%elem_of_cons; [|by apply Hkeys].
      apply Hmono. rewrite lookup_insert_eq. by eexists.
Qed.

(** X8. One run of [useIsSliceSeen] fills memory.  If the store answers
    the single reads of the keys of the slice (with a record or with
    [undefined]), then after the run every key of the slice is in memory,
    whatever happened to the batch read, and any later run of the hook on
    that slice leaves the object as it is: it sends nothing to the
    store. *)
Theorem useIsSliceSeen_fills_memory (slice : FeedPostSlice) store (isSeen : bool)
    seenPosts :
  items slice ≠ [] →
  (∀ k, k ∈ slice_keys slice → ∃ value, answer_get store k = Fulfilled value) →
  let seenPosts1 := (useIsSliceSeen slice store isSeen seenPosts).1 in
  (∀ k, k ∈ slice_keys slice → is_Some (cache seenPosts1 !! k))
  ∧ ∀ store' (isSeen' : bool),
      (useIsSliceSeen slice store' isSeen' seenPosts1).1 = seenPosts1.
Proof.
  intros Hitems Hanswers seenPosts1.
  assert (∀ k, k ∈ slice_keys slice → is_Some (cache seenPosts1 !! k)) as Hfilled.
  { unfold seenPosts1, useIsSliceSeen, useIsSliceSeen_effect.
    destruct (length (slice_keys slice) =? 0)%nat eqn:Hlen.
    { apply Nat.eqb_eq in Hlen. unfold slice_keys in Hlen.
      rewrite length_map in Hlen. by destruct (items slice). }
    pose proof (logged_gets_cache (slice_keys slice) seenPosts) as Hcache.
    pose proof (λ seenPosts', settle_all_logged_fills (slice_keys slice) store
                  seenPosts seenPosts' Hanswers) as Hfill.
    destruct (logged_gets (slice_keys slice) seenPosts) as [seenPosts2 logged].
    simpl in Hcache, Hfill.
    unfold getBatch.
    destruct (getBatch_loop (slice_keys slice) seenPosts2 ∅) as [[] result]; simpl.
    - destruct (Hfill seenPosts2) as (_ & Hkeys & _); [by rewrite Hcache|]. done.
    - destruct (Hfill (idb_call (idb_getBatch (slice_keys slice)) seenPosts2))
        as (_ & Hkeys & _); [simpl; by rewrite Hcache|].
      destruct (answer_getBatch store (slice_keys slice)) as [batch|reason]; simpl.
      + intros k Hk.
        pose proof (getBatch_onFulfilled_lookup batch
                      (settle_all store logged
                         (idb_call (idb_getBatch (slice_keys slice)) seenPosts2)) k)
          as Hlookup.
        simpl in Hlookup. rewrite Hlookup.
        destruct (batch !! k); [by eexists | by apply Hkeys].
      + done. }
  split; [done|].
  intros store' isSeen'. by rewrite useIsSliceSeen_warm.
Qed.

(** A record written by [setSeenPost] stays a record under later calls of
    [setSeenPost]. *)
Lemma setSeenPost_keeps_records (marked : list FeedPostSliceItem)
    (feed : FeedDescriptor) (now : FeedPostSliceItem → Z) seenPosts k :
  (∃ v, cache seenPosts !! k = Some (Some v)) →
  ∃ v, cache (foldl (λ seenPosts' item,
                       setSeenPost (item_post item) feed (now item) seenPosts')
                seenPosts marked) !! k = Some (Some v).
Proof.
  revert seenPosts. induction marked as [|item marked IH]; intros seenPosts Hk; [done|].
  simpl. apply IH. unfold setSeenPost. simpl. rewrite lookup_insert.
  case_decide; [by eexists | done].
Qed.

(** X9. After [setSeenPost] was called for every post of a slice that
    has items, [useIsSliceSeen] reports the slice seen, from memory: the
    object is left as it is and the store, which may not have committed
    any of the writes, is not asked. *)
Theorem marked_slice_is_seen (slice : FeedPostSlice) (feed : FeedDescriptor)
    (now : FeedPostSliceItem → Z) store (isSeen : bool) seenPosts :
  items slice ≠ [] →
  let seenPosts1 :=
    foldl (λ seenPosts' item, setSeenPost (item_post item) feed (now item) seenPosts')
      seenPosts (items slice) in
  useIsSliceSeen slice store isSeen seenPosts1 = (seenPosts1, true).
Proof.
  intros Hitems seenPosts1.
  assert (∀ k, k ∈ slice_keys slice → ∃ v, cache seenPosts1 !! k = Some (Some v))
    as Hmarked.
  { unfold seenPosts1, slice_keys. clear Hitems seenPosts1. revert seenPosts.
    induction (items slice) as [|item marked IH]; intros seenPosts k Hk.
    { by apply elem_of_nil in Hk. }
    simpl in *. apply elem_of_cons in Hk as [->|Hk]; [|by apply IH].
    apply setSeenPost_keeps_records. eexists. apply lookup_insert_eq. }
  assert (∀ k, k ∈ slice_keys slice → is_Some (cache seenPosts1 !! k)) as Hwarm.
  { intros k Hk. destruct (Hmarked k Hk) as [v Hv]. by eexists. }
  rewrite useIsSliceSeen_warm by done. f_equal.
  apply isAllSeen_true. intros k value.
  rewrite getBatch_loop_lookup by (by apply forallb_cache_has).
  destruct (decide (k ∈ slice_keys slice)) as [Hk|]; [|done].
  destruct (Hmarked k Hk) as [v Hv]. rewrite Hv. by intros [= <-].
Qed.

(** X10. The toggle round trip: the string the setter of
    [useHideSeenPosts] stores for a boolean reads back as that boolean;
    with nothing stored the toggle is off, and any stored string other
    than ['true'] reads as off. *)
Theorem useHideSeenPosts_round_trip (stored : option string) (value : bool) :
  (useHideSeenPosts (Some ((useHideSeenPosts stored).2 value))).1 = value
  ∧ (useHideSeenPosts None).1 = false
  ∧ ∀ other : string, other ≠ "true" → (useHideSeenPosts (Some other)).1 = false.
Proof.
  split_and!.
  - by destruct value.
  - done.
  - intros other Hother. simpl. by apply String.eqb_neq.
Qed.

End tracker_runs.

Lemma useIsPostSeen_sticky_witness :
  let p := {| uri := "at://x"; cid := "c1" |} in
  let v := {| post := p; lastSeenAt := 0; lastSeenFeed := "home" |} in
  let late := committed_store {[ key "at://x" "c1" := v ]} in
  ∃ seenPosts1,
    useIsPostSeen p (committed_store ∅) true constructor = (seenPosts1, false)
    ∧ useIsPostSeen p late true seenPosts1 = (seenPosts1, false).
Proof.
  intros p v late.
  destruct (useIsPostSeen_sticky p (committed_store ∅) true constructor None)
    as (seenPosts1 & Hfirst & _ & Hlater); [reflexivity | reflexivity |].
  exists seenPosts1. split; [done|].
  by apply (Hlater [] late true).
Defined.

Lemma useIsSliceSeen_fills_memory_witness :
  let slice := {| items := [ {| item_post := {| uri := "at://x"; cid := "c1" |} |} ] |} in
  let seenPosts1 := (useIsSliceSeen slice (committed_store ∅) false constructor).1 in
  is_Some (cache seenPosts1 !! key "at://x" "c1")
  ∧ (useIsSliceSeen slice (committed_store ∅) true seenPosts1).1 = seenPosts1.
Proof.
  intros slice seenPosts1.
  destruct (useIsSliceSeen_fills_memory slice (committed_store ∅) false constructor)
    as [Hfilled Hagain].
  - done.
  - intros k _. by eexists.
  - split; [|apply Hagain].
    apply Hfilled. by apply list_elem_of_singleton.
Defined.

Lemma marked_slice_is_seen_witness :
  let p := {| uri := "at://x"; cid := "c1" |} in
  let slice := {| items := [ {| item_post := p |} ] |} in
  let seenPosts1 := setSeenPost p "home" 7 constructor in
  useIsSliceSeen slice (committed_store ∅) false seenPosts1 = (seenPosts1, true).
Proof.
  intros p slice seenPosts1.
  by apply (marked_slice_is_seen slice "home" (λ _, 7%Z) (committed_store ∅) false constructor).
Defined.

(** * Navigation tabs *)

(** X11. The tab flags exclude each other: at most one of the six is set,
    exactly one when the current route is one of the six tab routes and
    none otherwise; without a navigation state the home flag alone is
    set. *)
Theorem useNavigationTabState_exclusive {NavigationState : Type}
    (currentRouteName : NavigationState → string) (state : option NavigationState) :
  let tabs := useNavigationTabState currentRouteName state in
  length (List.filter id (tab_flags tabs)) ≤ 1
  ∧ (state = None → tabs = mkTabState true false false false false false)
  ∧ ∀ st, state = Some st →
      (length (List.filter id (tab_flags tabs)) = 1
       ↔ In (currentRouteName st)
            ["Home"; "Search"; "Notifications"; "Bookmarks"; "MyProfile"; "Messages"]).
Proof.
  intros tabs. split_and!.
  - unfold tabs, useNavigationTabState, tab_flags.
    set (currentRoute := match state with Some st => _ | None => _ end).
    simpl.
    destruct (String.eqb_spec currentRoute "Home") as [->|_]; [simpl; lia|].
    destruct (String.eqb_spec currentRoute "Search") as [->|_]; [simpl; lia|].
    destruct (String.eqb_spec currentRoute "Notifications") as [->|_]; [simpl; lia|].
    destruct (String.eqb_spec currentRoute "Bookmarks") as [->|_]; [simpl; lia|].
    destruct (String.eqb_spec currentRoute "MyProfile") as [->|_]; [simpl; lia|].
    destruct (String.eqb_spec currentRoute "Messages") as [->|_]; simpl; lia.
  - by intros ->.
  - intros st ->. unfold tabs, useNavigationTabState, tab_flags. simpl.
    destruct (String.eqb_spec (currentRouteName st) "Home") as [->|?];
      [simpl; intuition|].
    destruct (String.eqb_spec (currentRouteName st) "Search") as [->|?];
      [simpl; intuition|].
    destruct (String.eqb_spec (currentRouteName st) "Notifications") as [->|?];
      [simpl; intuition|].
    destruct (String.eqb_spec (currentRouteName st) "Bookmarks") as [->|?];
      [simpl; intuition|].
    destruct (String.eqb_spec (currentRouteName st) "MyProfile") as [->|?];
      [simpl; intuition|].
    destruct (String.eqb_spec (currentRouteName st) "Messages") as [->|?];
      [simpl; intuition|].
    simpl. split; [discriminate|]. intuition congruence.
Qed.

(** * Bookmarks *)

Module BookmarkFacts.
Import Bookmark.

(** X12. One run of [runMutation] sends at most one request, always to
    the bookmark collection of the agent's own repository.  Bookmarking
    only ever creates a record, whose subject is the post, unvalidated;
    removing only ever deletes, and deletes the record key of the
    previous bookmark URI.  Removing when there is no previous URI (or an
    empty one) sends nothing and gives [undefined], and removing never
    gives anything but [undefined]. *)
Theorem runMutation_requests (agent : Agent) (post_uri : string)
    (prevBookmarkUri : option string) (shouldBookmark : bool) :
  let calls := (runMutation agent post_uri prevBookmarkUri shouldBookmark).1 in
  let outcome := (runMutation agent post_uri prevBookmarkUri shouldBookmark).2 in
  length calls ≤ 1
  ∧ (∀ c, In c calls →
       match c with
       | createRecord repo collection record validate =>
           shouldBookmark = true
           ∧ assertDid agent = Fulfilled repo
           ∧ collection = "community.lexicon.bookmarks.bookmark"
           ∧ subject record = post_uri
           ∧ validate = false
       | deleteRecord repo collection rkey =>
           shouldBookmark = false
           ∧ assertDid agent = Fulfilled repo
           ∧ collection = "community.lexicon.bookmarks.bookmark"
           ∧ ∃ prev, prevBookmarkUri = Some prev
                     ∧ AtUri_rkey agent prev = Fulfilled rkey
       end)
  ∧ (shouldBookmark = false →
     (prevBookmarkUri = None ∨ prevBookmarkUri = Some "") →
     calls = [] ∧ outcome = Fulfilled None)
  ∧ (shouldBookmark = false → ∀ uri, outcome = Fulfilled uri → uri = None).
Proof.
  intros calls outcome. unfold calls, outcome, runMutation.
  destruct shouldBookmark.
  - unfold bookmarkMutation.
    destruct (assertDid agent) as [did|reason] eqn:Hdid.
    + destruct (createRecord_answer agent _); simpl;
        (split_and!; [lia | | done | done]);
        intros c [<-|[]]; done.
    + simpl. split_and!; [lia | by intros c [] | done | done].
  - destruct prevBookmarkUri as [[|ch rest]|].
    + simpl. split_and!; [lia | by intros c [] | done | by intros _ uri [= <-]].
    + unfold unBookmarkMutation.
      destruct (AtUri_rkey agent (String ch rest)) as [rkey|reason] eqn:Hrkey.
      * destruct (assertDid agent) as [did|reason] eqn:Hdid.
        -- destruct (deleteRecord_answer agent _); simpl;
             (split_and!; [lia | | by intros _ [|] | ]).
           ++ intros c [<-|[]]. split_and!; [done..|]. by eexists.
           ++ by intros _ uri [= <-].
           ++ intros c [<-|[]]. split_and!; [done..|]. by eexists.
           ++ done.
        -- simpl. split_and!; [lia | by intros c [] | by intros _ [|] | done].
      * simpl. split_and!; [lia | by intros c [] | by intros _ [|] | done].
    + simpl. split_and!; [lia | by intros c [] | done | by intros _ uri [= <-]].
Qed.

End BookmarkFacts.

(** * Further properties of the alt-text flow *)

Module AltTextFlow.
Import AltText AltTextFacts.

Lemma substring0_app_exact (n : nat) (s t : string) :
  String.length s = n → substring0 n (s +:+ t) = s.
Proof.
  unfold substring0. revert n. induction s as [|c s IH]; intros n Hn; simpl in Hn; subst n.
  - rewrite append_nil_l. by destruct t.
  - rewrite append_cons. simpl. by rewrite IH.
Qed.

(** X13. The text that goes into the condensation request is bounded.
    The operation is [condense_text] and the target length 1900.  The
    request carries the original text itself when it has at most 5000
    characters, and otherwise exactly its first 4900 characters followed
    by the marker '... [content truncated for processing]', 4938
    characters in all; so it never carries more than 5000 characters. *)
Theorem condensing_request_is_bounded (originalText : string) (isVideo : bool) :
  ∃ directive text,
    condensing_body originalText isVideo
      = condensingRequest "condense_text" directive text 1900
    ∧ String.length text ≤ ABSOLUTE_MAX_LENGTH
    ∧ (String.length originalText ≤ ABSOLUTE_MAX_LENGTH → text = originalText)
    ∧ (ABSOLUTE_MAX_LENGTH < String.length originalText →
       text = substring0 4900 originalText +:+ "... [content truncated for processing]"
       ∧ String.length text = 4938
       ∧ substring0 4900 text = substring0 4900 originalText).
Proof.
  unfold condensing_body. eexists _, _. split; [reflexivity|].
  destruct (ABSOLUTE_MAX_LENGTH <? String.length originalText)%nat eqn:Hlong.
  - apply Nat.ltb_lt in Hlong.
    change (ABSOLUTE_MAX_LENGTH - 100) with 4900.
    change ABSOLUTE_MAX_LENGTH with 5000 in *.
    assert (String.length (substring0 4900 originalText) = 4900) as Hlen
      by (apply length_substring0; lia).
    assert (String.length (substring0 4900 originalText
                           +:+ "... [content truncated for processing]") = 4938)
      as Hlen'.
    { rewrite length_append, Hlen. reflexivity. }
    split_and!.
    + rewrite Hlen'. lia.
    + lia.
    + intros _. split_and!; [done | done |]. by apply substring0_app_exact.
  - apply Nat.ltb_ge in Hlong. split_and!; [done | done | lia].
Qed.

Lemma truncated_nonempty (originalText : string) : truncated originalText ≠ "".
Proof.
  intros Hempty. apply (f_equal String.length) in Hempty.
  unfold truncated in Hempty. rewrite length_append in Hempty.
  change (String.length "...") with 3 in Hempty. simpl in Hempty. lia.
Qed.

Lemma truthy_string_nonempty (s : option string) (t : string) :
  truthy_string s = Some t → s = Some t ∧ t ≠ "".
Proof. destruct s as [[|c s]|]; simpl; intros [= <-]; done. Qed.

Lemma truthy_field_truthy (field : option JsValue) (v : JsValue) :
  truthy_field field = Some v → field = Some v ∧ js_truthy v = true.
Proof.
  destruct field as [w|]; simpl; [|done].
  destruct (js_truthy w) eqn:Hw; [|done]. by intros [= <-].
Qed.

Lemma js_truthy_truncated (originalText : string) :
  js_truthy (js_string (truncated originalText)) = true.
Proof.
  pose proof (truncated_nonempty originalText). simpl.
  by destruct (truncated originalText).
Qed.

(** X14. [condenseAltText] never returns a falsy value, in particular
    never an empty text.  With the proxy configured it returns the truthy
    [altText] value that the service delivered for the condensation
    request as it is, string or not, and the truncation of the original
    when the request delivered none; without a configured proxy it is
    always the truncation.  The truncation is the first 1997 characters
    of the original followed by three dots: at most 2000 characters, and
    it keeps the first 1997 characters of an original that has that
    many. *)
Theorem condenseAltText_never_empty (CLOUD_FUNCTION_URL : option string)
    (fetch : Fetch) (originalText : string) (isVideo : bool) :
  let result := condenseAltText CLOUD_FUNCTION_URL fetch originalText isVideo in
  js_truthy result = true
  ∧ (∀ url delivered,
       CLOUD_FUNCTION_URL = Some url → url ≠ "" →
       condensation fetch originalText isVideo = Some delivered →
       result = delivered)
  ∧ (condensation fetch originalText isVideo = None →
     result = js_string (truncated originalText))
  ∧ (truthy_string CLOUD_FUNCTION_URL = None →
     result = js_string (truncated originalText))
  ∧ String.length (truncated originalText) ≤ MAX_ALT_TEXT_LENGTH
  ∧ (MAX_ALT_TEXT_LENGTH - 3 ≤ String.length originalText →
     substring0 (MAX_ALT_TEXT_LENGTH - 3) (truncated originalText)
       = substring0 (MAX_ALT_TEXT_LENGTH - 3) originalText).
Proof.
  intros result.
  assert (truthy_string CLOUD_FUNCTION_URL = None →
          result = js_string (truncated originalText)) as Hnone.
  { intros Hurl. unfold result, condenseAltText. by rewrite Hurl. }
  assert (∀ url, CLOUD_FUNCTION_URL = Some url → url ≠ "" →
            result = match condensation fetch originalText isVideo with
                     | Some condensed => condensed
                     | None => js_string (truncated originalText)
                     end) as Hsome.
  { intros url -> Hurl. by apply condenseAltText_spec. }
  assert (condensation fetch originalText isVideo = None →
          result = js_string (truncated originalText)) as Hfailed.
  { intros Hcond. destruct (truthy_string CLOUD_FUNCTION_URL) as [url|] eqn:Hurl;
      [|by apply Hnone].
    apply truthy_string_nonempty in Hurl as [-> Hurl].
    by rewrite (Hsome url eq_refl Hurl), Hcond. }
  split_and!.
  - destruct (truthy_string CLOUD_FUNCTION_URL) as [url|] eqn:Hurl.
    + apply truthy_string_nonempty in Hurl as [-> Hurl].
      rewrite (Hsome url eq_refl Hurl).
      destruct (condensation fetch originalText isVideo) as [delivered|] eqn:Hcond;
        [|apply js_truthy_truncated].
      unfold condensation in Hcond.
      destruct (fetch _) as [response|e]; [|done].
      destruct (json response) as [responseData|e]; [|done].
      destruct (ok response); [|done].
      by apply truthy_field_truthy in Hcond as [_ ?].
    + rewrite Hnone by done. apply js_truthy_truncated.
  - intros url delivered Hconf Hurl Hcond. by rewrite (Hsome url Hconf Hurl), Hcond.
  - done.
  - done.
  - apply length_truncated_le.
  - intros Hle. unfold truncated.
    rewrite substring0_app_exact; [done|]. by apply length_substring0.
Qed.

Lemma on_proxy_failure_is_error (proxyResponse : Response) :
  ∃ errorMsg, on_proxy_failure proxyResponse = port_error errorMsg.
Proof. unfold on_proxy_failure. repeat case_match; by eexists. Qed.

Lemma alternate_approach_altText (fetch : Fetch) (e : Error)
    (base64Data mimeType : string) (isVideo : bool) (s : JsValue) :
  alternate_approach fetch e base64Data mimeType isVideo = port_altText s →
  ∃ simpleResponse simpleData simpleAltText,
    fetch (simpleRequestBody base64Data mimeType isVideo true
             (fileName_of mimeType isVideo)) = returned simpleResponse
    ∧ ok simpleResponse = true
    ∧ json simpleResponse = returned simpleData
    ∧ altText simpleData = Some (js_string simpleAltText)
    ∧ s = js_string simpleAltText.
Proof.
  unfold alternate_approach.
  destruct (fetch _) as [simpleResponse|altError]; [|done].
  destruct (ok simpleResponse) eqn:Hok; simpl; [|done].
  destruct (json simpleResponse) as [simpleData|altError] eqn:Hjson; [|done].
  destruct (altText simpleData) as [[t|o]|] eqn:Ht; [|done..].
  intros [= <-]. by eexists _, _, _.
Qed.

Lemma on_fetch_error_altText (fetch : Fetch) (e : Error)
    (base64Data mimeType : string) (isVideo : bool) (s : JsValue) :
  on_fetch_error fetch e base64Data mimeType isVideo = port_altText s →
  name e = "TypeError"
  ∧ includes "Failed to fetch" (message e) = true
  ∧ alternate_approach fetch e base64Data mimeType isVideo = port_altText s.
Proof.
  unfold on_fetch_error.
  destruct (String.eqb_spec (name e) "TypeError") as [Hname|_]; simpl.
  - destruct (includes "Failed to fetch" (message e)) eqn:Hmsg; [done|].
    repeat case_match; done.
  - repeat case_match; done.
Qed.

Lemma on_fetch_error_no_retry (fetch : Fetch) (e : Error)
    (base64Data mimeType : string) (isVideo : bool) :
  String.eqb (name e) "TypeError" && includes "Failed to fetch" (message e) = false →
  ∃ msg, ∀ fetch' : Fetch,
    on_fetch_error fetch' e base64Data mimeType isVideo = port_error (js_string msg).
Proof.
  intros Hno. unfold on_fetch_error. rewrite Hno.
  repeat case_match; by eexists.
Qed.

(** X15. Where a returned alt text comes from.  Whenever
    [generateAltTextViaProxy] returns an alt text, the source was read
    and one of two things happened.  Either the first request was
    answered ok with a string [altText], and the result is that string
    when it has at most 2000 characters and otherwise the outcome of
    [condenseAltText] on it, for a video with the note in front exactly
    when the length test says that it fits.  Or the first request failed
    (it threw, or the body of its ok answer could not be parsed, or
    handling that answer threw) with a [TypeError] whose message has
    'Failed to fetch', and the result is the string [altText] of an ok
    answer to the second, simplified request.  A first response that is
    not ok always gives an error, never an alt text. *)
Theorem altText_provenance (CLOUD_FUNCTION_URL : option string) (fetch : Fetch)
    (media : Thrown (string * string)) (isVideo : bool) :
  (∀ s : JsValue,
     generateAltTextViaProxy CLOUD_FUNCTION_URL fetch media isVideo = port_altText s →
     ∃ base64Data mimeType,
       media = returned (base64Data, mimeType)
       ∧ ((∃ proxyResponse responseData altText0,
             fetch (proxyRequestBody base64Data mimeType isVideo
                      (fileName_of mimeType isVideo) (String.length base64Data))
               = returned proxyResponse
             ∧ ok proxyResponse = true
             ∧ json proxyResponse = returned responseData
             ∧ altText responseData = Some (js_string altText0)
             ∧ if (MAX_ALT_TEXT_LENGTH <? String.length altText0)%nat
               then
                 let altText1 := condenseAltText CLOUD_FUNCTION_URL fetch altText0 isVideo in
                 if isVideo then
                   (js_note_fits altText1 = returned false ∧ s = altText1)
                   ∨ (js_note_fits altText1 = returned true
                      ∧ ∃ withNote, js_after_note altText1 = returned withNote
                                    ∧ s = js_string withNote)
                 else s = altText1
               else s = js_string altText0)
          ∨ (∃ e simpleResponse simpleData simpleAltText,
               name e = "TypeError"
               ∧ includes "Failed to fetch" (message e) = true
               ∧ (fetch (proxyRequestBody base64Data mimeType isVideo
                           (fileName_of mimeType isVideo) (String.length base64Data))
                    = threw e
                  ∨ ∃ proxyResponse,
                      fetch (proxyRequestBody base64Data mimeType isVideo
                               (fileName_of mimeType isVideo) (String.length base64Data))
                        = returned proxyResponse
                      ∧ ok proxyResponse = true
                      ∧ (json proxyResponse = threw e
                         ∨ ∃ responseData,
                             json proxyResponse = returned responseData
                             ∧ on_proxy_data CLOUD_FUNCTION_URL fetch isVideo responseData
                               = threw e))
               ∧ fetch (simpleRequestBody base64Data mimeType isVideo true
                          (fileName_of mimeType isVideo)) = returned simpleResponse
               ∧ ok simpleResponse = true
               ∧ json simpleResponse = returned simpleData
               ∧ altText simpleData = Some (js_string simpleAltText)
               ∧ s = js_string simpleAltText)))
  ∧ (∀ base64Data mimeType proxyResponse,
       media = returned (base64Data, mimeType) →
       fetch (proxyRequestBody base64Data mimeType isVideo
                (fileName_of mimeType isVideo) (String.length base64Data))
         = returned proxyResponse →
       ok proxyResponse = false →
       ∃ errorMsg,
         generateAltTextViaProxy CLOUD_FUNCTION_URL fetch media isVideo
           = port_error errorMsg).
Proof.
  split.
  - intros s. unfold generateAltTextViaProxy.
    destruct (truthy_string CLOUD_FUNCTION_URL) as [url|]; [|done].
    destruct (String.eqb url "YOUR_FUNCTION_URL_HERE"); [done|].
    destruct media as [[base64Data mimeType]|error0]; [|done].
    intros Hresult. exists base64Data, mimeType. split; [done|].
    set (main := proxyRequestBody base64Data mimeType isVideo
                   (fileName_of mimeType isVideo) (String.length base64Data)) in *.
    assert (∀ e, on_fetch_error fetch e base64Data mimeType isVideo = port_altText s →
                 name e = "TypeError"
                 ∧ includes "Failed to fetch" (message e) = true
                 ∧ ∃ simpleResponse simpleData simpleAltText,
                     fetch (simpleRequestBody base64Data mimeType isVideo true
                              (fileName_of mimeType isVideo)) = returned simpleResponse
                     ∧ ok simpleResponse = true
                     ∧ json simpleResponse = returned simpleData
                     ∧ altText simpleData = Some (js_string simpleAltText)
                     ∧ s = js_string simpleAltText) as Hretry.
    { intros e (Hname & Hmsg & Halt)%on_fetch_error_altText.
      apply alternate_approach_altText in Halt as (r & d & t & ? & ? & ? & ? & ?).
      split_and!; [done..|]. by exists r, d, t. }
    destruct (fetch main) as [proxyResponse|e] eqn:Hfetch.
    2:{ right. destruct (Hretry e Hresult) as (? & ? & r & d & t & ? & ? & ? & ? & ?).
        exists e, r, d, t. split_and!; [done | done | by left | done..]. }
    destruct (ok proxyResponse) eqn:Hok; simpl in Hresult.
    2:{ destruct (on_proxy_failure_is_error proxyResponse) as [msg Hmsg]. congruence. }
    destruct (json proxyResponse) as [responseData|e] eqn:Hjson.
    2:{ right. destruct (Hretry e Hresult) as (? & ? & r & d & t & ? & ? & ? & ? & ?).
        exists e, r, d, t. split_and!; [done | done | | done..].
        right. exists proxyResponse. split_and!; [done | done | by left]. }
    destruct (on_proxy_data CLOUD_FUNCTION_URL fetch isVideo responseData)
      as [portResponse|e] eqn:Hdata.
    2:{ right. destruct (Hretry e Hresult) as (? & ? & r & d & t & ? & ? & ? & ? & ?).
        exists e, r, d, t. split_and!; [done | done | | done..].
        right. exists proxyResponse. split_and!; [done | done |].
        right. by exists responseData. }
    subst portResponse. left. unfold on_proxy_data in Hdata.
    destruct (altText responseData) as [[altText0|o]|] eqn:HaltText; [|done..].
    exists proxyResponse, responseData, altText0. split_and!; [done..|].
    destruct (MAX_ALT_TEXT_LENGTH <? String.length altText0)%nat; [|by injection Hdata].
    cbv zeta in *. destruct isVideo; [|by injection Hdata].
    destruct (js_note_fits _) as [[|]|e] eqn:Hfits; [| |done].
    + destruct (js_after_note _) as [withNote|e] eqn:Hnote; [|done].
      right. split; [done|]. exists withNote. split; [done|]. by injection Hdata.
    + left. split; [done|]. by injection Hdata.
  - intros base64Data mimeType proxyResponse -> Hfetch Hok.
    unfold generateAltTextViaProxy.
    destruct (truthy_string CLOUD_FUNCTION_URL) as [url|]; [|by eexists].
    destruct (String.eqb url "YOUR_FUNCTION_URL_HERE"); [by eexists|].
    rewrite Hfetch, Hok. apply on_proxy_failure_is_error.
Qed.

(** X16. A text within the ceiling passes through untouched: when the
    first request is answered ok with an [altText] of at most 2000
    characters (2000 included, the empty text included), that text is
    the result, and no further request decides anything. *)
Theorem short_alt_text_passes_through (url : string) (fetch : Fetch)
    (base64Data mimeType : string) (isVideo : bool)
    (proxyResponse : Response) (responseData : ResponseData) (altText0 : string) :
  url ≠ "" →
  url ≠ "YOUR_FUNCTION_URL_HERE" →
  fetch (proxyRequestBody base64Data mimeType isVideo
           (fileName_of mimeType isVideo) (String.length base64Data))
    = returned proxyResponse →
  ok proxyResponse = true →
  json proxyResponse = returned responseData →
  altText responseData = Some (js_string altText0) →
  String.length altText0 ≤ MAX_ALT_TEXT_LENGTH →
  generateAltTextViaProxy (Some url) fetch (returned (base64Data, mimeType)) isVideo
    = port_altText (js_string altText0).
Proof.
  intros Hurl Hurl' Hfetch Hok Hjson HaltText Hshort.
  unfold generateAltTextViaProxy.
  rewrite truthy_string_Some by done.
  apply String.eqb_neq in Hurl'. rewrite Hurl', Hfetch, Hok. simpl negb. cbv iota.
  rewrite Hjson. unfold on_proxy_data. rewrite HaltText.
  apply Nat.ltb_ge in Hshort. by rewrite Hshort.
Qed.

(** X17. When the first request throws.  Unless the error is a
    [TypeError] whose message has 'Failed to fetch', the result is an
    error message that the error alone decides: no second request is
    made.  If it is such an error, the simplified request is made once,
    and when that is answered ok with a string [altText], this text is
    the result as it is, whatever its length. *)
Theorem first_request_throws (url : string) (fetch : Fetch)
    (base64Data mimeType : string) (isVideo : bool) (e : Error) :
  url ≠ "" →
  url ≠ "YOUR_FUNCTION_URL_HERE" →
  fetch (proxyRequestBody base64Data mimeType isVideo
           (fileName_of mimeType isVideo) (String.length base64Data)) = threw e →
  (String.eqb (name e) "TypeError" && includes "Failed to fetch" (message e) = false →
   ∃ msg,
     generateAltTextViaProxy (Some url) fetch (returned (base64Data, mimeType)) isVideo
       = port_error (js_string msg)
     ∧ ∀ fetch' : Fetch,
         fetch' (proxyRequestBody base64Data mimeType isVideo
                   (fileName_of mimeType isVideo) (String.length base64Data)) = threw e →
         generateAltTextViaProxy (Some url) fetch' (returned (base64Data, mimeType)) isVideo
           = port_error (js_string msg))
  ∧ (String.eqb (name e) "TypeError" && includes "Failed to fetch" (message e) = true →
     ∀ simpleResponse simpleData simpleAltText,
       fetch (simpleRequestBody base64Data mimeType isVideo true
                (fileName_of mimeType isVideo)) = returned simpleResponse →
       ok simpleResponse = true →
       json simpleResponse = returned simpleData →
       altText simpleData = Some (js_string simpleAltText) →
       generateAltTextViaProxy (Some url) fetch (returned (base64Data, mimeType)) isVideo
         = port_altText (js_string simpleAltText)).
Proof.
  intros Hurl Hurl' Hfetch.
  assert (∀ fetch' : Fetch,
            fetch' (proxyRequestBody base64Data mimeType isVideo
                      (fileName_of mimeType isVideo) (String.length base64Data)) = threw e →
            generateAltTextViaProxy (Some url) fetch' (returned (base64Data, mimeType)) isVideo
              = on_fetch_error fetch' e base64Data mimeType isVideo) as Hgen.
  { intros fetch' Hfetch'. unfold generateAltTextViaProxy.
    rewrite truthy_string_Some by done.
    apply String.eqb_neq in Hurl'. by rewrite Hurl', Hfetch'. }
  split.
  - intros Hno.
    destruct (on_fetch_error_no_retry fetch e base64Data mimeType isVideo Hno)
      as [msg Hmsg].
    exists msg. split; [by rewrite Hgen|].
    intros fetch' Hfetch'. by rewrite Hgen.
  - intros Hyes simpleResponse simpleData simpleAltText Hsimple Hok Hjson HaltText.
    rewrite Hgen by done. unfold on_fetch_error. rewrite Hyes.
    unfold alternate_approach. by rewrite Hsimple, Hok, Hjson, HaltText.
Qed.

End AltTextFlow.

(** * Reading the source of the media *)

Module MediaSourceFacts.
Import AltText AltTextFacts MediaSource.

Lemma prefix_app (p s : string) : String.prefix p (p +:+ s) = true.
Proof.
  induction p as [|c p IH]; [by destruct s|].
  rewrite append_cons. simpl. by destruct (Ascii.ascii_dec c c).
Qed.

Lemma prefix_cons_ne (a c : Ascii.ascii) (p s : string) :
  a ≠ c → String.prefix (String a p) (String c s) = false.
Proof. intros Hne. simpl. by destruct (Ascii.ascii_dec a c). Qed.

Lemma drop_chars_app (p s : string) : drop_chars (String.length p) (p +:+ s) = s.
Proof. induction p as [|c p IH]; [done|]. by rewrite append_cons. Qed.

Lemma prefix_drop (p s : string) :
  String.prefix p s = true → s = p +:+ drop_chars (String.length p) s.
Proof.
  revert s. induction p as [|c p IH]; intros s; [done|].
  destruct s as [|c' s]; simpl; [done|].
  destruct (Ascii.ascii_dec c c') as [<-|]; [|done].
  intros Hp. rewrite append_cons. f_equal. by apply IH.
Qed.

Lemma match_rest_eq (s : string) :
  match_rest s =
    if String.prefix ";base64," s && no_line_terminator (drop_chars 8 s) then
      Some (EmptyString, drop_chars 8 s)
    else
      match s with
      | EmptyString => None
      | String c s' =>
          if is_line_terminator c then None
          else
            match match_rest s' with
            | Some (group1, group2) => Some (String c group1, group2)
            | None => None
            end
      end.
Proof. by destruct s. Qed.

Lemma no_line_terminator_app (s t : string) :
  no_line_terminator (s +:+ t) = no_line_terminator s && no_line_terminator t.
Proof.
  induction s as [|c s IH]; [done|].
  rewrite append_cons. simpl. by rewrite IH, andb_assoc.
Qed.

(** The match finds the first group it was built from, when that group
    has no semicolon. *)
Lemma match_rest_complete (group1 group2 : string) :
  no_semicolon group1 = true →
  no_line_terminator group1 = true →
  no_line_terminator group2 = true →
  match_rest (group1 +:+ ";base64," +:+ group2) = Some (group1, group2).
Proof.
  intros Hsemi Hline1 Hline2. induction group1 as [|c group1 IH].
  - rewrite append_nil_l, match_rest_eq, prefix_app.
    change 8 with (String.length ";base64,"). by rewrite drop_chars_app, Hline2.
  - simpl in Hsemi, Hline1.
    apply andb_prop in Hsemi as [Hc Hsemi]. apply andb_prop in Hline1 as [Hl Hline1].
    rewrite append_cons, match_rest_eq.
    assert (String.prefix ";base64," (String c (group1 +:+ ";base64," +:+ group2)) = false)
      as ->.
    { apply prefix_cons_ne. apply negb_true_iff, Ascii.eqb_neq in Hc. congruence. }
    simpl. apply negb_true_iff in Hl. rewrite Hl. by rewrite IH.
Qed.

(** Whatever the match finds spells the string it was found in. *)
Lemma match_rest_sound (s group1 group2 : string) :
  match_rest s = Some (group1, group2) →
  s = group1 +:+ ";base64," +:+ group2
  ∧ no_line_terminator group1 = true
  ∧ no_line_terminator group2 = true.
Proof.
  revert group1. induction s as [|c s IH]; intros group1; rewrite match_rest_eq.
  - simpl. done.
  - destruct (String.prefix ";base64," (String c s)
              && no_line_terminator (drop_chars 8 (String c s))) eqn:Hhere.
    + apply andb_prop in Hhere as [Hprefix Hline]. intros [= <- <-].
      split_and!; [|done..].
      rewrite append_nil_l. by apply (prefix_drop ";base64,").
    + destruct (is_line_terminator c) eqn:Hc; [done|].
      destruct (match_rest s) as [[g1 g2]|]; [|done].
      intros [= <- <-]. destruct (IH g1 eq_refl) as (-> & Hg1 & Hg2).
      split_and!; [done | | done]. simpl. by rewrite Hc, Hg1.
Qed.

Lemma match_data_url_sound (source mimeType base64Data : string) :
  match_data_url source = Some (mimeType, base64Data) →
  source = data_url mimeType base64Data
  ∧ mimeType ≠ ""
  ∧ no_line_terminator mimeType = true
  ∧ no_line_terminator base64Data = true.
Proof.
  unfold match_data_url.
  destruct (String.prefix "data:" source) eqn:Hprefix; [|done].
  apply (prefix_drop "data:") in Hprefix.
  change (String.length "data:") with 5 in Hprefix.
  destruct (drop_chars 5 source) as [|c rest]; [done|].
  destruct (is_line_terminator c) eqn:Hc; [done|].
  destruct (match_rest rest) as [[g1 g2]|] eqn:Hrest; [|done].
  intros [= <- <-]. apply match_rest_sound in Hrest as (-> & Hg1 & Hg2).
  split_and!; [done | done | | done].
  simpl. by rewrite Hc, Hg1.
Qed.

Lemma match_data_url_complete (mimeType base64Data : string) :
  mimeType ≠ "" →
  no_semicolon mimeType = true →
  no_line_terminator mimeType = true →
  no_line_terminator base64Data = true →
  match_data_url (data_url mimeType base64Data) = Some (mimeType, base64Data).
Proof.
  intros Hne Hsemi Hline1 Hline2. unfold match_data_url, data_url.
  rewrite prefix_app. change 5 with (String.length "data:"). rewrite drop_chars_app.
  destruct mimeType as [|c mimeType]; [done|].
  rewrite append_cons. simpl in Hsemi, Hline1.
  apply andb_prop in Hsemi as [_ Hsemi]. apply andb_prop in Hline1 as [Hc Hline1].
  apply negb_true_iff in Hc. rewrite Hc.
  by rewrite match_rest_complete.
Qed.

Lemma getBase64Data_S (fuel : nat) (download : Download) (source : string) :
  getBase64Data (S fuel) download source =
    if String.prefix "data:" source then
      match match_data_url source with
      | None => Some (threw (new_Error "Invalid Data URL format received"))
      | Some (mimeType, base64Data) =>
          if negb (includes "/" mimeType)
             || match base64Data with EmptyString => true | _ => false end
          then Some (threw (new_Error "Extracted mimeType or base64 data appears invalid."))
          else Some (returned (base64Data, mimeType))
      end
    else if String.prefix "http:" source || String.prefix "https:" source then
      fetch_source (getBase64Data fuel download) download source
        "Failed to fetch URL: " "Failed to fetch or process media URL: "
    else if String.prefix "blob:" source then
      fetch_source (getBase64Data fuel download) download source
        "Failed to fetch blob URL: " "Failed to fetch or process blob URL: "
    else
      Some (threw (new_Error "Background script received an unsupported source type.")).
Proof. reflexivity. Qed.

(** X18. Data URLs round-trip.  For a media type that is not empty, has
    a slash and has no semicolon, and a base64 text that is not empty
    (neither with a line break), [getBase64Data] on the data URL built
    from them returns exactly the two, without downloading anything, as
    soon as it may run at all. *)
Theorem getBase64Data_of_data_url (mimeType base64Data : string)
    (fuel : nat) (download : Download) :
  mimeType ≠ "" →
  base64Data ≠ "" →
  includes "/" mimeType = true →
  no_semicolon mimeType = true →
  no_line_terminator mimeType = true →
  no_line_terminator base64Data = true →
  getBase64Data (S fuel) download (data_url mimeType base64Data)
    = Some (returned (base64Data, mimeType)).
Proof.
  intros Hm Hd Hslash Hsemi Hline1 Hline2. rewrite getBase64Data_S.
  assert (String.prefix "data:" (data_url mimeType base64Data) = true) as ->
    by apply prefix_app.
  rewrite match_data_url_complete by done.
  rewrite Hslash. by destruct base64Data.
Qed.

(** X19. What [getBase64Data] returns for a source that starts with
    [data:] spells the source: the source is [data:], the media type,
    [;base64,] and the base64 text; the media type has a slash, the
    base64 text is not empty, and neither has a line break. *)
Theorem getBase64Data_spells_source (fuel : nat) (download : Download)
    (source base64Data mimeType : string) :
  String.prefix "data:" source = true →
  getBase64Data fuel download source = Some (returned (base64Data, mimeType)) →
  source = data_url mimeType base64Data
  ∧ includes "/" mimeType = true
  ∧ base64Data ≠ ""
  ∧ no_line_terminator mimeType = true
  ∧ no_line_terminator base64Data = true.
Proof.
  intros Hprefix. destruct fuel as [|fuel]; [done|].
  rewrite getBase64Data_S, Hprefix.
  destruct (match_data_url source) as [[m d]|] eqn:Hmatch; [|done].
  destruct (includes "/" m) eqn:Hslash; simpl; [|done].
  destruct d as [|c d]; [done|].
  intros [= <- <-].
  apply match_data_url_sound in Hmatch as (-> & _ & Hm & Hd). done.
Qed.

(** X20. A source of no known kind (not [data:], [http:], [https:] or
    [blob:]; the empty string is one) makes [getBase64Data] throw, nothing
    is downloaded or requested, and [generateAltTextViaProxy] turns the
    error into its 'Request Error' message. *)
Theorem unsupported_source_is_an_error (fuel : nat) (download : Download)
    (url : string) (fetch : Fetch) (source : string) (isVideo : bool) :
  url ≠ "" →
  url ≠ "YOUR_FUNCTION_URL_HERE" →
  String.prefix "data:" source = false →
  String.prefix "http:" source = false →
  String.prefix "https:" source = false →
  String.prefix "blob:" source = false →
  getBase64Data (S fuel) download source
    = Some (threw (new_Error "Background script received an unsupported source type."))
  ∧ generateAltTextViaProxy_source (S fuel) download (Some url) fetch source isVideo
    = Some (port_error
              (js_string
                 "Request Error: Background script received an unsupported source type.")).
Proof.
  intros Hurl Hurl' Hdata Hhttp Hhttps Hblob.
  assert (getBase64Data (S fuel) download source
          = Some (threw (new_Error "Background script received an unsupported source type.")))
    as Hthrows.
  { by rewrite getBase64Data_S, Hdata, Hhttp, Hhttps, Hblob. }
  split; [done|].
  unfold generateAltTextViaProxy_source. rewrite Hthrows.
  unfold generateAltTextViaProxy. rewrite truthy_string_Some by done.
  apply String.eqb_neq in Hurl'. by rewrite Hurl'.
Qed.

Lemma prefix_excludes (p q s : string) (a c : Ascii.ascii) (p' q' : string) :
  p = String a p' → q = String c q' → a ≠ c →
  String.prefix p s = true → String.prefix q s = false.
Proof.
  intros -> -> Hne Hp. apply prefix_drop in Hp. rewrite Hp, append_cons.
  apply prefix_cons_ne. congruence.
Qed.

(** What the [catch] of a download branch throws. *)
Lemma fetch_source_throws (again : string → option (Thrown (string * string)))
    (download : Download) (source notOk wrap : string) (e : Error) :
  fetch_source again download source notOk wrap = Some (threw e) →
  ∃ text, e = new_Error (wrap +:+ text).
Proof.
  unfold fetch_source. intros Hthrow.
  repeat case_match; simplify_eq; by eexists.
Qed.

(** X21. Every failure while downloading the source is reported under
    one heading.  For a source that starts with [http:] or [https:],
    whatever goes wrong (the request fails, the response is not ok, the
    body cannot be read, the reader fails, or the data URL that was read
    is not accepted) the error thrown has a message that starts with
    'Failed to fetch or process media URL: '; for a response that is not
    ok the message goes on with 'Failed to fetch URL: ', the status and
    the status text.  For a source that starts with [blob:] the heading
    is 'Failed to fetch or process blob URL: '. *)
Theorem download_failures_are_wrapped (fuel : nat) (download : Download)
    (source : string) :
  (String.prefix "http:" source || String.prefix "https:" source = true →
   (∀ e, getBase64Data fuel download source = Some (threw e) →
      ∃ text, e = new_Error ("Failed to fetch or process media URL: " +:+ text))
   ∧ ∀ response,
       download source = returned response →
       media_ok response = false →
       getBase64Data (S fuel) download source
         = Some (threw (new_Error
                   ("Failed to fetch or process media URL: "
                    +:+ "Failed to fetch URL: " +:+ pretty (media_status response)
                    +:+ " " +:+ media_statusText response))))
  ∧ (String.prefix "blob:" source = true →
     ∀ e, getBase64Data fuel download source = Some (threw e) →
       ∃ text, e = new_Error ("Failed to fetch or process blob URL: " +:+ text)).
Proof.
  split.
  - intros Hhttp.
    assert (String.prefix "data:" source = false) as Hdata.
    { apply orb_prop in Hhttp as [Hp|Hp];
        by eapply (prefix_excludes _ "data:" source _ _ _ _ eq_refl eq_refl); [|exact Hp]. }
    split.
    + intros e. destruct fuel as [|fuel]; [done|].
      rewrite getBase64Data_S, Hdata, Hhttp. apply fetch_source_throws.
    + intros response Hresponse Hnotok.
      rewrite getBase64Data_S, Hdata, Hhttp. unfold fetch_source.
      by rewrite Hresponse, Hnotok.
  - intros Hblob e.
    assert (String.prefix "data:" source = false) as Hdata
      by (by eapply (prefix_excludes _ "data:" source _ _ _ _ eq_refl eq_refl); [|exact Hblob]).
    assert (String.prefix "http:" source = false) as Hhttp
      by (by eapply (prefix_excludes _ "http:" source _ _ _ _ eq_refl eq_refl); [|exact Hblob]).
    assert (String.prefix "https:" source = false) as Hhttps
      by (by eapply (prefix_excludes _ "https:" source _ _ _ _ eq_refl eq_refl); [|exact Hblob]).
    destruct fuel as [|fuel]; [done|].
    rewrite getBase64Data_S, Hdata, Hhttp, Hhttps, Hblob. apply fetch_source_throws.
Qed.

Lemma getBase64Data_data_fuel (download : Download) (source : string) (fuel : nat) :
  String.prefix "data:" source = true →
  ∃ result, getBase64Data (S fuel) download source = Some result
            ∧ getBase64Data 1 download source = Some result.
Proof.
  intros Hdata. rewrite !getBase64Data_S, Hdata.
  repeat case_match; by eexists.
Qed.

Lemma fetch_source_ext (again again' : string → option (Thrown (string * string)))
    (download : Download) (source notOk wrap : string) :
  (∀ response blob dataUrl,
     download source = returned response →
     media_blob response = returned blob →
     blobToDataURL blob = Fulfilled dataUrl →
     again dataUrl = again' dataUrl ∧ is_Some (again dataUrl)) →
  fetch_source again download source notOk wrap
    = fetch_source again' download source notOk wrap
  ∧ is_Some (fetch_source again download source notOk wrap).
Proof.
  intros Hagain. unfold fetch_source.
  destruct (download source) as [response|e] eqn:Hresponse; [|by split; [|eexists]].
  destruct (media_ok response); simpl; [|by split; [|eexists]].
  destruct (media_blob response) as [blob|e] eqn:Hblob; [|by split; [|eexists]].
  destruct (blobToDataURL blob) as [dataUrl|printed] eqn:Hurl; [|by split; [|eexists]].
  destruct (Hagain response blob dataUrl) as [<- [result Hresult]]; [done..|].
  rewrite Hresult. split; [done|]. destruct result; by eexists.
Qed.

(** X22. [getBase64Data] comes to an end.  When the data URLs that the
    reader produces start with [data:], two levels of calls are enough
    for every source: the function returns a result (the two parts, or
    an error thrown), and the same result however many more calls it is
    allowed. *)
Theorem getBase64Data_terminates (download : Download) (source : string) :
  (∀ src response blob dataUrl,
     download src = returned response →
     media_blob response = returned blob →
     blobToDataURL blob = Fulfilled dataUrl →
     String.prefix "data:" dataUrl = true) →
  ∃ result, ∀ fuel, 2 ≤ fuel → getBase64Data fuel download source = Some result.
Proof.
  intros Hreader.
  assert (∀ fuel notOk wrap,
            fetch_source (getBase64Data (S fuel) download) download source notOk wrap
              = fetch_source (getBase64Data 1 download) download source notOk wrap
            ∧ is_Some (fetch_source (getBase64Data (S fuel) download) download
                         source notOk wrap)) as Hfetch.
  { intros fuel notOk wrap. apply fetch_source_ext.
    intros response blob dataUrl Hresponse Hblob Hurl.
    destruct (getBase64Data_data_fuel download dataUrl fuel) as (result & -> & ->).
    - by eapply Hreader.
    - split; [done | by eexists]. }
  assert (is_Some (getBase64Data 2 download source)) as [result Hresult].
  { rewrite getBase64Data_S. repeat case_match; try (by eexists); apply Hfetch. }
  exists result. intros fuel Hfuel.
  destruct fuel as [|[|fuel]]; [lia | lia |]. rewrite <- Hresult.
  rewrite !getBase64Data_S.
  by rewrite !(proj1 (Hfetch fuel _ _)).
Qed.

End MediaSourceFacts.

(** * The statements above on concrete runs *)

Lemma useNavigationTabState_exclusive_witness :
  useNavigationTabState (λ name : string, name) None
    = mkTabState true false false false false false
  ∧ length (List.filter id (tab_flags (useNavigationTabState (λ name : string, name)
                                         (Some "Bookmarks")))) = 1.
Proof.
  split.
  - by apply (proj1 (proj2 (useNavigationTabState_exclusive (λ name : string, name) None))).
  - apply (proj2 (proj2 (useNavigationTabState_exclusive (λ name : string, name)
                            (Some "Bookmarks"))) "Bookmarks" eq_refl).
    simpl. tauto.
Defined.

Lemma runMutation_requests_witness :
  let agent :=
    Bookmark.mkAgent (Fulfilled "did:plc:me")
      (λ _, Fulfilled "at://did:plc:me/community.lexicon.bookmarks.bookmark/3k")
      (λ _, Fulfilled tt) (λ _, Fulfilled "3k") "2025-01-01T00:00:00.000Z" in
  Bookmark.runMutation agent "at://did:plc:x/app.bsky.feed.post/1" None false
    = ([], Fulfilled None)
  ∧ Bookmark.runMutation agent "at://did:plc:x/app.bsky.feed.post/1" (Some "") false
    = ([], Fulfilled None).
Proof.
  intros agent. split.
  - destruct (BookmarkFacts.runMutation_requests agent
                "at://did:plc:x/app.bsky.feed.post/1" None false)
      as (_ & _ & Hnone & _).
    destruct (Hnone eq_refl (or_introl eq_refl)) as [Hcalls Houtcome].
    by apply injective_projections.
  - destruct (BookmarkFacts.runMutation_requests agent
                "at://did:plc:x/app.bsky.feed.post/1" (Some "") false)
      as (_ & _ & Hnone & _).
    destruct (Hnone eq_refl (or_intror eq_refl)) as [Hcalls Houtcome].
    by apply injective_projections.
Defined.

Section alt_text_runs.
Import AltText AltTextFacts AltTextFlow MediaSource MediaSourceFacts.

Lemma condenseAltText_never_empty_witness :
  let number := js_other {| truthy := true; note_fits := returned false;
                            printed := returned "42" |} in
  let numeric : Fetch := λ _,
    returned {| ok := true; status := 200; statusText := "OK";
                json := returned {| altText := Some number; error := None |};
                text := returned "" |} in
  condenseAltText (Some "https://proxy.example/alt") numeric (letters 2500) false = number
  ∧ condenseAltText None numeric (letters 2500) false = js_string (truncated (letters 2500))
  ∧ String.length (truncated (letters 2500)) ≤ MAX_ALT_TEXT_LENGTH.
Proof.
  intros number numeric. split_and!.
  - destruct (condenseAltText_never_empty (Some "https://proxy.example/alt") numeric
                (letters 2500) false) as (_ & Hdelivered & _).
    by apply (Hdelivered "https://proxy.example/alt" number).
  - destruct (condenseAltText_never_empty None numeric (letters 2500) false)
      as (_ & _ & _ & Hnone & _).
    by apply Hnone.
  - destruct (condenseAltText_never_empty None numeric (letters 2500) false)
      as (_ & _ & _ & _ & Hlen & _).
    done.
Defined.

Lemma altText_provenance_witness :
  let reply (t : string) : Thrown Response :=
    returned {| ok := true; status := 200; statusText := "OK";
                json := returned {| altText := Some (js_string t); error := None |};
                text := returned "" |} in
  let second_try : Fetch := λ body,
    match body with
    | simpleRequestBody _ _ _ _ _ => reply "A cat on a sofa."
    | _ => threw {| name := "TypeError"; message := "Failed to fetch" |}
    end in
  let refused : Fetch := λ _,
    returned {| ok := false; status := 429; statusText := "Too Many Requests";
                json := returned {| altText := Some (js_string "A cat on a sofa.");
                                    error := None |};
                text := returned "" |} in
  (∃ e simpleResponse,
     name e = "TypeError"
     ∧ second_try (proxyRequestBody "iVBORw0KGgo=" "image/png" false "file.png" 12) = threw e
     ∧ second_try (simpleRequestBody "iVBORw0KGgo=" "image/png" false true "file.png")
       = returned simpleResponse
     ∧ ok simpleResponse = true)
  ∧ ∃ errorMsg,
      generateAltTextViaProxy (Some "https://proxy.example/alt") refused
        (returned ("iVBORw0KGgo=", "image/png")) false = port_error errorMsg.
Proof.
  intros reply second_try refused. split.
  - destruct (altText_provenance (Some "https://proxy.example/alt") second_try
                (returned ("iVBORw0KGgo=", "image/png")) false) as [Hfrom _].
    destruct (Hfrom (js_string "A cat on a sofa.") eq_refl)
      as (base64Data & mimeType & [= <- <-] & [Hfirst|Hsecond]).
    + destruct Hfirst as (r & d & a & Hfetch & _). discriminate Hfetch.
    + destruct Hsecond as (e & r & d & t & Hname & _ & Hfailed & Hsimple & Hok & _).
      exists e, r. split_and!; [done | | done | done].
      destruct Hfailed as [Hthrew|(r0 & Hfetch & _)]; [done | discriminate Hfetch].
  - destruct (altText_provenance (Some "https://proxy.example/alt") refused
                (returned ("iVBORw0KGgo=", "image/png")) false) as [_ Hnotok].
    by eapply (Hnotok "iVBORw0KGgo=" "image/png").
Defined.

Lemma short_alt_text_passes_through_witness :
  generateAltTextViaProxy (Some "https://proxy.example/alt")
    (λ _, returned {| ok := true; status := 200; statusText := "OK";
                      json := returned {| altText := Some (js_string (letters 2000));
                                          error := None |};
                      text := returned "" |})
    (returned ("iVBORw0KGgo=", "image/png")) true
  = port_altText (js_string (letters 2000)).
Proof.
  apply (short_alt_text_passes_through "https://proxy.example/alt" _
           "iVBORw0KGgo=" "image/png" true
           {| ok := true; status := 200; statusText := "OK";
              json := returned {| altText := Some (js_string (letters 2000));
                                  error := None |};
              text := returned "" |}
           {| altText := Some (js_string (letters 2000)); error := None |} (letters 2000));
    done.
Defined.

Lemma first_request_throws_witness :
  ∃ msg,
    generateAltTextViaProxy (Some "https://proxy.example/alt")
      (λ _, threw {| name := "AbortError"; message := "The operation was aborted." |})
      (returned ("iVBORw0KGgo=", "image/png")) false
    = port_error (js_string msg).
Proof.
  destruct (first_request_throws "https://proxy.example/alt"
              (λ _, threw {| name := "AbortError"; message := "The operation was aborted." |})
              "iVBORw0KGgo=" "image/png" false
              {| name := "AbortError"; message := "The operation was aborted." |})
    as [Hno _]; [done | done | done |].
  destruct Hno as (msg & Hmsg & _); [reflexivity|].
  by exists msg.
Defined.

Lemma getBase64Data_of_data_url_witness :
  getBase64Data 1 (λ _, threw (new_Error "offline")) (data_url "image/png" "iVBORw0KGgo=")
    = Some (returned ("iVBORw0KGgo=", "image/png")).
Proof.
  apply (getBase64Data_of_data_url "image/png" "iVBORw0KGgo=" 0); try done.
Defined.

Lemma getBase64Data_spells_source_witness :
  "data:image/png;base64,iVBORw0KGgo=" = data_url "image/png" "iVBORw0KGgo=".
Proof.
  apply (getBase64Data_spells_source 1 (λ _, threw (new_Error "offline"))
           "data:image/png;base64,iVBORw0KGgo=" "iVBORw0KGgo=" "image/png");
    reflexivity.
Defined.

Lemma unsupported_source_is_an_error_witness :
  generateAltTextViaProxy_source 1 (λ _, threw (new_Error "offline"))
    (Some "https://proxy.example/alt") (λ _, threw (new_Error "offline")) "" true
  = Some (port_error
            (js_string
               "Request Error: Background script received an unsupported source type.")).
Proof.
  by apply (unsupported_source_is_an_error 0 _ "https://proxy.example/alt" _ "" true).
Defined.

Lemma download_failures_are_wrapped_witness :
  let missing : Download := λ _,
    returned {| media_ok := false; media_status := 404;
                media_statusText := "Not Found";
                media_blob := threw (new_Error "no body") |} in
  getBase64Data 1 missing "https://cdn.example/cat.png"
    = Some (threw (new_Error
              "Failed to fetch or process media URL: Failed to fetch URL: 404 Not Found")).
Proof.
  intros missing.
  destruct (download_failures_are_wrapped 0 missing "https://cdn.example/cat.png")
    as [Hhttp _].
  destruct Hhttp as [_ Hnotok]; [reflexivity|].
  by apply (Hnotok {| media_ok := false; media_status := 404;
                      media_statusText := "Not Found";
                      media_blob := threw (new_Error "no body") |}).
Defined.

Lemma getBase64Data_terminates_witness :
  let cdn : Download := λ _,
    returned {| media_ok := true; media_status := 200; media_statusText := "OK";
                media_blob :=
                  returned {| size := 8; type := "image/png";
                              blobToDataURL :=
                                Fulfilled "data:image/png;base64,iVBORw0KGgo=" |} |} in
  ∃ result, getBase64Data 2 cdn "https://cdn.example/cat.png" = Some result
            ∧ getBase64Data 5 cdn "https://cdn.example/cat.png" = Some result.
Proof.
  intros cdn.
  destruct (getBase64Data_terminates cdn "https://cdn.example/cat.png")
    as [result Hresult].
  - intros src response blob dataUrl [= <-] [= <-] [= <-]. reflexivity.
  - exists result. split; apply Hresult; lia.
Defined.

End alt_text_runs.
